(** * Tic-Tac-Toe Socket.IO server: rooms, moves, resets and cleanup

    A shallow embedding of [server.js].

    - The registry [rooms] is a JavaScript [Map], whose iteration order is
      insertion order; the handlers that look a room up by its [fullRoomId]
      walk [rooms.entries()] and stop at the first hit, so the registry is an
      association list in insertion order.  A handler that mutates the room
      object it found is modelled by storing the new room under its key.
    - A board is a JavaScript array, modelled as a finite map from integer
      keys to values: reading a key that is not there gives [undefined],
      writing a key stores it whatever the key is.
    - Symbols and identifiers are strings; the values a cell or a payload
      symbol can hold are [undefined], [null] and strings.  The [index] of a
      move is the integer of the payload, in range or not.
    - Every handler is a function from the registry to the new registry and
      the list of transport effects it performs, in program order
      ([console.log] calls are left out).  [Math.random] and [Date.now] are
      inputs of the create-room event.
    - The handlers proper work on an [event], the request once its payload
      is read; [serve] runs a handler on a [request] as it arrives, where
      the payload can be missing and the room id of a join-room can be any
      value, and shows where reading the payload throws.
    - [trim], [toUpperCase] and [toLowerCase] are modelled on ASCII. *)

From stdpp Require Import gmap strings list fin_maps pretty.
From Stdlib Require Import ZArith Ascii.

Open Scope Z_scope.
Open Scope string_scope.
Open Scope list_scope.

(** ** JavaScript values that occur in a room *)

Inductive jsval : Type :=
  | JUndefined
  | JNull
  | JStr (s : string).

#[global] Instance jsval_eq_dec : EqDecision jsval.
Proof. solve_decision. Defined.

(** [a === b] on the values above. *)
Definition strict_eq (a b : jsval) : bool := bool_decide (a = b).

(** Truthiness: [undefined], [null] and the empty string are falsy. *)
Definition truthy (v : jsval) : bool :=
  match v with
  | JStr s => negb (String.eqb s "")
  | _ => false
  end.

(** ** Arrays *)

(** [board[i]]: a key that is absent reads [undefined]. *)
Definition get (board : gmap Z jsval) (i : Z) : jsval :=
  default JUndefined (board !! i).

(** [Array(9).fill(null)]. *)
Definition fresh_board : gmap Z jsval :=
  list_to_map (map (λ i, (i, JNull)) [0; 1; 2; 3; 4; 5; 6; 7; 8]).

(** [board.every(p)]: [every] visits the array indices (the keys from 0 up)
    that are present; other keys are plain properties and are not visited. *)
Definition every (p : jsval → bool) (board : gmap Z jsval) : bool :=
  forallb (λ kv, (kv.1 <? 0)%Z || p kv.2) (map_to_list board).

(** ** Strings *)

Definition is_space (c : ascii) : bool :=
  match nat_of_ascii c with
  | 9%nat | 10%nat | 11%nat | 12%nat | 13%nat | 32%nat => true
  | _ => false
  end.

Fixpoint trimStart (s : string) : string :=
  match s with
  | EmptyString => EmptyString
  | String c s' => if is_space c then trimStart s' else s
  end.

Fixpoint trimEnd (s : string) : string :=
  match s with
  | EmptyString => EmptyString
  | String c s' =>
      match trimEnd s' with
      | EmptyString => if is_space c then EmptyString else String c EmptyString
      | t => String c t
      end
  end.

(** [s.trim()], on ASCII white space. *)
Definition trim (s : string) : string := trimEnd (trimStart s).

Definition upper_ascii (c : ascii) : ascii :=
  let n := nat_of_ascii c in
  if (97 <=? n)%nat && (n <=? 122)%nat then ascii_of_nat (n - 32) else c.

Definition lower_ascii (c : ascii) : ascii :=
  let n := nat_of_ascii c in
  if (65 <=? n)%nat && (n <=? 90)%nat then ascii_of_nat (n + 32) else c.

Fixpoint map_string (f : ascii → ascii) (s : string) : string :=
  match s with
  | EmptyString => EmptyString
  | String c s' => String (f c) (map_string f s')
  end.

(** [s.toUpperCase()] and [s.toLowerCase()], on ASCII letters. *)
Definition toUpperCase : string → string := map_string upper_ascii.
Definition toLowerCase : string → string := map_string lower_ascii.

(** [s.charAt(i)]: the empty string when [i] is out of range. *)
Definition charAt (s : string) (i : nat) : string :=
  match String.get i s with
  | Some c => String c EmptyString
  | None => EmptyString
  end.

(** ** Rooms and the registry *)

Inductive Status : Type := waiting | playing | finished.

#[global] Instance Status_eq_dec : EqDecision Status.
Proof. solve_decision. Defined.

Record Room : Type := mkRoom {
  players : list string;
  board : gmap Z jsval;
  currentPlayer : string;
  gameStatus : Status;
  fullRoomId : string;
  lastStartingPlayer : string
}.

Definition set_players (r : Room) (ps : list string) : Room :=
  mkRoom ps (board r) (currentPlayer r) (gameStatus r) (fullRoomId r)
    (lastStartingPlayer r).

(** The registry: the entries of the [Map], oldest first. *)
Definition Rooms : Type := list (string * Room).

(** [rooms.has(k)] *)
Definition rooms_has (k : string) (rooms : Rooms) : bool :=
  existsb (λ e, String.eqb e.1 k) rooms.

(** [rooms.get(k)] *)
Fixpoint rooms_get (k : string) (rooms : Rooms) : option Room :=
  match rooms with
  | [] => None
  | (k', r) :: rest => if String.eqb k' k then Some r else rooms_get k rest
  end.

(** [rooms.set(k, r)]: an existing key keeps its place, a new key goes last. *)
Fixpoint rooms_set (k : string) (r : Room) (rooms : Rooms) : Rooms :=
  match rooms with
  | [] => [(k, r)]
  | (k', r') :: rest =>
      if String.eqb k' k then (k', r) :: rest else (k', r') :: rooms_set k r rest
  end.

(** [rooms.delete(k)] *)
Fixpoint rooms_delete (k : string) (rooms : Rooms) : Rooms :=
  match rooms with
  | [] => []
  | (k', r') :: rest =>
      if String.eqb k' k then rest else (k', r') :: rooms_delete k rest
  end.

(** The loop [for (const [key, value] of rooms.entries())] with its [break]:
    the first entry whose [fullRoomId] is [roomId], with its key. *)
Fixpoint findByFullRoomId (roomId : string) (rooms : Rooms)
  : option (string * Room) :=
  match rooms with
  | [] => None
  | (key, value) :: rest =>
      if String.eqb (fullRoomId value) roomId then Some (key, value)
      else findByFullRoomId roomId rest
  end.

(** ** Messages and transport effects *)

Inductive message : Type :=
  | game_joined (roomId shortRoomId symbol : string) (isFirstPlayer : bool)
  | game_player_joined (symbol : string)
  | game_move (board : gmap Z jsval) (currentPlayer : string) (winner : jsval)
  | game_error (msg : string)
  | game_left
  | game_opponent_left.

Inductive effect : Type :=
  | SocketJoin (sid roomId : string)              (* socket.join(roomId) *)
  | SocketLeave (sid roomId : string)             (* socket.leave(roomId) *)
  | SocketEmit (sid : string) (m : message)       (* socket.emit(...) *)
  | IoToEmit (roomId : string) (m : message)      (* io.to(roomId).emit(...) *)
  | SocketToEmit (sid roomId : string) (m : message).
                                                  (* socket.to(roomId).emit(...) *)

(** ** checkWinner *)

Definition lines : list (Z * Z * Z) :=
  [ (0, 1, 2); (3, 4, 5); (6, 7, 8);
    (0, 3, 6); (1, 4, 7); (2, 5, 8);
    (0, 4, 8); (2, 4, 6) ].

(** The test of the [if] inside the loop over [lines]. *)
Definition line_hit (board : gmap Z jsval) (l : Z * Z * Z) : bool :=
  let '(a, b, c) := l in
  truthy (get board a)
  && strict_eq (get board a) (get board b)
  && strict_eq (get board a) (get board c).

(** The loop over the lines: [Some v] when it returns [v] from inside. *)
Fixpoint scan_lines (board : gmap Z jsval) (ls : list (Z * Z * Z))
  : option jsval :=
  match ls with
  | [] => None
  | l :: ls' =>
      if line_hit board l then Some (get board l.1.1)
      else scan_lines board ls'
  end.

Definition checkWinner (board : gmap Z jsval) : jsval :=
  match scan_lines board lines with
  | Some w => w
  | None =>
      if every (λ cell, negb (strict_eq cell JNull)) board then JStr "draw"
      else JNull
  end.

(** ** generateRoomId *)

Definition chars : string := "ABCDEFGHIJKLMNOPQRSTUVWXYZ0123456789".

(** [rnd k] stands for the [k]-th value of
    [Math.floor(Math.random() * chars.length)] taken by the handler. *)
Fixpoint generateRoomId_from (rnd : nat → nat) (k n : nat) (roomId : string)
  : string :=
  match n with
  | O => roomId
  | S n' => generateRoomId_from rnd (S k) n' (roomId +:+ charAt chars (rnd k))
  end.

Definition generateRoomId (rnd : nat → nat) (k : nat) : string :=
  generateRoomId_from rnd k 6 "".

(** The loop [while (rooms.has(shortRoomId)) shortRoomId = generateRoomId()],
    run for at most [fuel] further draws. *)
Fixpoint unique_id (fuel : nat) (rooms : Rooms) (rnd : nat → nat) (k : nat)
  : option string :=
  let shortRoomId := generateRoomId rnd k in
  if rooms_has shortRoomId rooms then
    match fuel with
    | O => None
    | S fuel' => unique_id fuel' rooms rnd (k + 6)
    end
  else Some shortRoomId.

(** ** The handlers *)

Definition includes (sid : string) (ps : list string) : bool :=
  bool_decide (sid ∈ ps).

(** [ps.filter((id) => id !== sid)] *)
Definition without (sid : string) (ps : list string) : list string :=
  filter (λ id, id ≠ sid) ps.

(** [game:create-room]; [now] is [Date.now()]. *)
Definition on_create_room (sid : string) (now : N) (rnd : nat → nat)
    (fuel : nat) (rooms : Rooms) : option (Rooms * list effect) :=
  match unique_id fuel rooms rnd 0 with
  | None => None
  | Some shortRoomId =>
      let full := "room-" +:+ pretty now +:+ "-" +:+ toLowerCase shortRoomId in
      Some (rooms_set shortRoomId
              (mkRoom [sid] fresh_board "X" waiting full "X") rooms,
            [ SocketJoin sid full;
              SocketEmit sid (game_joined full shortRoomId "X" true) ])
  end.

(** [game:join-room]; [roomId] is [None] when the payload has none. *)
Definition on_join_room (sid : string) (roomId : option string)
    (rooms : Rooms) : Rooms * list effect :=
  match roomId with
  | None =>
      (rooms, [SocketEmit sid
                 (game_error "Invalid room ID. Please enter a room ID.")])
  | Some roomId =>
      if String.eqb roomId "" || (String.length (trim roomId) =? 0)%nat then
        (rooms, [SocketEmit sid
                   (game_error "Invalid room ID. Please enter a room ID.")])
      else
        let shortRoomId := toUpperCase (trim roomId) in
        match rooms_get shortRoomId rooms with
        | None =>
            (rooms, [SocketEmit sid
                       (game_error "Room not found. Please check the room ID.")])
        | Some room =>
            if (2 <=? length (players room))%nat then
              (rooms, [SocketEmit sid
                         (game_error "Room is full. Maximum 2 players allowed.")])
            else if includes sid (players room) then
              (rooms, [SocketEmit sid
                         (game_error "You are already in this room.")])
            else
              let lsp :=
                if String.eqb (lastStartingPlayer room) "" then "X"
                else lastStartingPlayer room in
              (rooms_set shortRoomId
                 (mkRoom (players room ++ [sid]) (board room) lsp playing
                    (fullRoomId room) lsp) rooms,
               [ SocketJoin sid (fullRoomId room);
                 SocketEmit sid
                   (game_joined (fullRoomId room) shortRoomId "O" false);
                 IoToEmit (fullRoomId room) (game_player_joined "X") ])
        end
  end.

(** [game:move] *)
Definition on_move (sid roomId : string) (index : Z) (symbol : jsval)
    (rooms : Rooms) : Rooms * list effect :=
  match findByFullRoomId roomId rooms with
  | None => (rooms, [SocketEmit sid (game_error "Room not found")])
  | Some (shortRoomId, room) =>
      if negb (bool_decide (gameStatus room = playing)) then
        (rooms, [SocketEmit sid (game_error "Game is not in progress")])
      else if negb (strict_eq (JStr (currentPlayer room)) symbol) then
        (rooms, [SocketEmit sid (game_error "Not your turn")])
      else if negb (strict_eq (get (board room) index) JNull) then
        (rooms, [SocketEmit sid (game_error "Cell already occupied")])
      else
        let board' := <[index := symbol]> (board room) in
        let currentPlayer' := if strict_eq symbol (JStr "X") then "O" else "X" in
        let winner := checkWinner board' in
        let gameStatus' := if truthy winner then finished else gameStatus room in
        (rooms_set shortRoomId
           (mkRoom (players room) board' currentPlayer' gameStatus'
              (fullRoomId room) (lastStartingPlayer room)) rooms,
         [IoToEmit roomId (game_move board' currentPlayer' winner)])
  end.

(** [game:reset] *)
Definition on_reset (sid roomId : string) (rooms : Rooms)
  : Rooms * list effect :=
  match findByFullRoomId roomId rooms with
  | None => (rooms, [SocketEmit sid (game_error "Room not found")])
  | Some (key, room) =>
      let lsp := if String.eqb (lastStartingPlayer room) "X" then "O" else "X" in
      (rooms_set key
         (mkRoom (players room) fresh_board lsp playing (fullRoomId room) lsp)
         rooms,
       [IoToEmit roomId (game_move fresh_board lsp JNull)])
  end.

(** [game:leave] *)
Definition on_leave (sid roomId : string) (rooms : Rooms)
  : Rooms * list effect :=
  match findByFullRoomId roomId rooms with
  | Some (shortRoomId, room) =>
      let ps := without sid (players room) in
      if (length ps =? 0)%nat then
        (rooms_delete shortRoomId rooms,
         [SocketEmit sid game_left; SocketLeave sid roomId])
      else
        (rooms_set shortRoomId (set_players room ps) rooms,
         [ SocketEmit sid game_left;
           SocketToEmit sid roomId game_opponent_left;
           SocketLeave sid roomId ])
  | None => (rooms, [SocketLeave sid roomId])
  end.

(** [disconnect]: the loop over all entries; deleting the entry being
    visited does not disturb the iteration of a [Map]. *)
Fixpoint on_disconnect (sid : string) (rooms : Rooms) : Rooms * list effect :=
  match rooms with
  | [] => ([], [])
  | (shortRoomId, room) :: rest =>
      let '(rest', effs) := on_disconnect sid rest in
      if includes sid (players room) then
        let ps := without sid (players room) in
        if (length ps =? 0)%nat then (rest', effs)
        else ((shortRoomId, set_players room ps) :: rest',
              SocketToEmit sid (fullRoomId room) game_opponent_left :: effs)
      else ((shortRoomId, room) :: rest', effs)
  end.

(** ** The health check *)

Module Health.
Record t : Type := mk {
  status : string;
  rooms : Z;
  waitingRooms : Z;
  activeGames : Z;
  timestamp : string
}.
End Health.

(** The body of [GET /health]; [timestamp] is [new Date().toISOString()]. *)
Definition health (timestamp : string) (rooms : Rooms) : Health.t :=
  let waitingRooms :=
    length (List.filter (λ kr, (length (players kr.2) =? 1)%nat) rooms) in
  Health.mk "ok" (Z.of_nat (length rooms)) (Z.of_nat waitingRooms)
    (Z.of_nat (length rooms) - Z.of_nat waitingRooms) timestamp.

(** ** The server as a state machine *)

Inductive event : Type :=
  | CreateRoom (sid : string) (now : N) (rnd : nat → nat) (fuel : nat)
  | JoinRoom (sid : string) (roomId : option string)
  | Move (sid roomId : string) (index : Z) (symbol : jsval)
  | Reset (sid roomId : string)
  | Leave (sid roomId : string)
  | Disconnect (sid : string).

Definition handle (rooms : Rooms) (ev : event) : option (Rooms * list effect) :=
  match ev with
  | CreateRoom sid now rnd fuel => on_create_room sid now rnd fuel rooms
  | JoinRoom sid roomId => Some (on_join_room sid roomId rooms)
  | Move sid roomId index symbol => Some (on_move sid roomId index symbol rooms)
  | Reset sid roomId => Some (on_reset sid roomId rooms)
  | Leave sid roomId => Some (on_leave sid roomId rooms)
  | Disconnect sid => Some (on_disconnect sid rooms)
  end.

(** The registry after a run of events, [None] when a [create-room] loop
    did not find a free identifier within its fuel. *)
Fixpoint run (rooms : Rooms) (evs : list event) : option Rooms :=
  match evs with
  | [] => Some rooms
  | ev :: evs' =>
      match handle rooms ev with
      | Some (rooms', _) => run rooms' evs'
      | None => None
      end
  end.

(** The registries the server can be in: it starts empty. *)
Inductive reachable : Rooms → Prop :=
  | reachable_init : reachable []
  | reachable_step rooms ev rooms' effs :
      reachable rooms →
      handle rooms ev = Some (rooms', effs) →
      reachable rooms'.

(** ** Requests as they arrive *)

(** The value a client put under a property of its payload.  Numbers are
    integers here; [FObject] stands for any object or array. *)
Inductive field : Type :=
  | FUndefined
  | FNull
  | FStr (s : string)
  | FNum (n : Z)
  | FBool (b : bool)
  | FObject.

Definition field_truthy (f : field) : bool :=
  match f with
  | FUndefined | FNull => false
  | FStr s => negb (String.eqb s "")
  | FNum n => negb (n =? 0)%Z
  | FBool b => b
  | FObject => true
  end.

(** An inbound request.  The payload is [None] when the client sent no
    payload object (the handler's argument is [undefined] or [null]).  The
    [roomId] of a join-room is any value; the payload of a move, reset or
    leave, when there is one, has a string [roomId]. *)
Inductive request : Type :=
  | ReqCreateRoom (sid : string) (now : N) (rnd : nat → nat) (fuel : nat)
  | ReqJoinRoom (sid : string) (payload : option field)
  | ReqMove (sid : string) (payload : option (string * Z * jsval))
  | ReqReset (sid : string) (payload : option string)
  | ReqLeave (sid : string) (payload : option string)
  | ReqDisconnect (sid : string).

(** The parameter pattern [({ roomId, ... }) =>] and the test
    [!roomId || roomId.trim().length === 0] of join-room: destructuring a
    missing payload throws a [TypeError]; a falsy [roomId] is answered as a
    missing one; a truthy [roomId] that is not a string has no [trim] to
    call, which throws as well.  [None] stands for the throw. *)
Definition event_of (req : request) : option event :=
  match req with
  | ReqCreateRoom sid now rnd fuel => Some (CreateRoom sid now rnd fuel)
  | ReqJoinRoom sid None => None
  | ReqJoinRoom sid (Some (FStr s)) => Some (JoinRoom sid (Some s))
  | ReqJoinRoom sid (Some roomId) =>
      if field_truthy roomId then None else Some (JoinRoom sid None)
  | ReqMove sid None => None
  | ReqMove sid (Some (roomId, index, symbol)) =>
      Some (Move sid roomId index symbol)
  | ReqReset sid None => None
  | ReqReset sid (Some roomId) => Some (Reset sid roomId)
  | ReqLeave sid None => None
  | ReqLeave sid (Some roomId) => Some (Leave sid roomId)
  | ReqDisconnect sid => Some (Disconnect sid)
  end.

Inductive outcome : Type :=
  | Completed (res : Rooms * list effect)  (* the handler returned *)
  | Threw                                  (* a TypeError left the handler *)
  | OutOfFuel.                             (* the create-room loop ran on *)

(** A handler run on a request as it arrives.  A handler that throws does
    so before it touches the registry or the transport. *)
Definition serve (rooms : Rooms) (req : request) : outcome :=
  match event_of req with
  | None => Threw
  | Some ev =>
      match handle rooms ev with
      | Some res => Completed res
      | None => OutOfFuel
      end
  end.

(** * Specification *)

(** ** Well-formed rooms *)

Definition is_mark (s : string) : Prop := s = "X" ∨ s = "O".

(** The opposite symbol. *)
Definition opposite (s : string) : string :=
  if String.eqb s "X" then "O" else "X".

Definition cell_ok (v : jsval) : Prop :=
  v = JNull ∨ v = JStr "X" ∨ v = JStr "O".

Definition cells : gset Z := list_to_set [0; 1; 2; 3; 4; 5; 6; 7; 8].

(** A 9-cell board: one cell per index 0..8, each empty or holding a mark. *)
Definition board_ok (b : gmap Z jsval) : Prop :=
  dom b = cells ∧ map_Forall (λ _ v, cell_ok v) b.

#[global] Instance is_mark_dec s : Decision (is_mark s).
Proof. unfold is_mark. apply _. Defined.

#[global] Instance cell_ok_dec v : Decision (cell_ok v).
Proof. unfold cell_ok. apply _. Defined.

#[global] Instance board_ok_dec b : Decision (board_ok b).
Proof. unfold board_ok. apply _. Defined.

Record room_ok (r : Room) : Prop := mk_room_ok {
  ok_players_pos : players r ≠ [];
  ok_players_max : (length (players r) ≤ 2)%nat;
  ok_waiting : gameStatus r = waiting → length (players r) = 1%nat;
  ok_board : board_ok (board r);
  ok_current : is_mark (currentPlayer r);
  ok_last : is_mark (lastStartingPlayer r)
}.

(** The registry invariant: keys are distinct and every room is well formed. *)
Definition rooms_ok (rooms : Rooms) : Prop :=
  NoDup rooms.*1 ∧ Forall (λ kr, room_ok kr.2) rooms.

(** ** Moves, replies and preconditions, as the specification words them *)

(** The precondition of a move, in the words of the specification. *)
Definition legal_move (room : Room) (index : Z) (symbol : jsval) : Prop :=
  gameStatus room = playing
  ∧ symbol = JStr (currentPlayer room)
  ∧ get (board room) index = JNull.

#[global] Instance legal_move_dec room index symbol :
  Decision (legal_move room index symbol).
Proof. unfold legal_move. apply _. Defined.

(** An accepted move shows as the state broadcast to the room's group. *)
Definition accepted (effs : list effect) : bool :=
  match effs with
  | [IoToEmit _ (game_move _ _ _)] => true
  | _ => false
  end.

(** The error message a move that is not legal is answered with. *)
Definition move_error (room : Room) (symbol : jsval) : string :=
  if negb (bool_decide (gameStatus room = playing)) then
    "Game is not in progress"
  else if negb (strict_eq (JStr (currentPlayer room)) symbol) then
    "Not your turn"
  else "Cell already occupied".

(** The effects addressed to a room's group, and the replies to the sender. *)
Definition group_emits (effs : list effect) : list (string * message) :=
  omap (λ e, match e with IoToEmit rid m => Some (rid, m) | _ => None end) effs.

Definition direct_replies (effs : list effect) : list message :=
  omap (λ e, match e with SocketEmit _ m => Some m | _ => None end) effs.

Definition sender (ev : event) : string :=
  match ev with
  | CreateRoom sid _ _ _ | JoinRoom sid _ | Move sid _ _ _
  | Reset sid _ | Leave sid _ | Disconnect sid => sid
  end.

(** The preconditions of the specification's transition table: create-room
    and disconnect have none; join-room wants a room id that is not empty
    after trimming, a room registered under it, fewer than two players and a
    sender who is not one of them; move wants the room found by internal id
    and a legal move; reset and leave want the room found by internal id. *)
Definition precondition (rooms : Rooms) (ev : event) : bool :=
  match ev with
  | CreateRoom _ _ _ _ => true
  | JoinRoom sid roomId =>
      match roomId with
      | None => false
      | Some s =>
          negb (String.eqb (trim s) "")
          && match rooms_get (toUpperCase (trim s)) rooms with
             | None => false
             | Some room =>
                 (length (players room) <? 2)%nat
                 && negb (includes sid (players room))
             end
      end
  | Move _ roomId index symbol =>
      match findByFullRoomId roomId rooms with
      | None => false
      | Some (_, room) => bool_decide (legal_move room index symbol)
      end
  | Reset _ roomId | Leave _ roomId =>
      match findByFullRoomId roomId rooms with
      | None => false
      | Some _ => true
      end
  | Disconnect _ => true
  end.

Definition request_sender (req : request) : string :=
  match req with
  | ReqCreateRoom sid _ _ _ | ReqJoinRoom sid _ | ReqMove sid _
  | ReqReset sid _ | ReqLeave sid _ | ReqDisconnect sid => sid
  end.

(** The request carries what the handler reads: a payload object where the
    event takes one and, for join-room, a [roomId] that is a string or a
    falsy value. *)
Definition well_formed (req : request) : bool :=
  match req with
  | ReqCreateRoom _ _ _ _ | ReqDisconnect _ => true
  | ReqJoinRoom _ None | ReqMove _ None | ReqReset _ None | ReqLeave _ None =>
      false
  | ReqJoinRoom _ (Some (FStr _)) => true
  | ReqJoinRoom _ (Some roomId) => negb (field_truthy roomId)
  | ReqMove _ (Some _) | ReqReset _ (Some _) | ReqLeave _ (Some _) => true
  end.

(** The preconditions of the transition table on a request as it arrives:
    a join-room without a room identifier (no payload, or a [roomId] that
    is not a string) fails "room identifier non-empty"; a move, reset or
    leave without payload names no room. *)
Definition request_precondition (rooms : Rooms) (req : request) : bool :=
  match req with
  | ReqCreateRoom _ _ _ _ | ReqDisconnect _ => true
  | ReqJoinRoom sid (Some (FStr s)) => precondition rooms (JoinRoom sid (Some s))
  | ReqJoinRoom _ _ => false
  | ReqMove sid (Some (roomId, index, symbol)) =>
      precondition rooms (Move sid roomId index symbol)
  | ReqReset sid (Some roomId) => precondition rooms (Reset sid roomId)
  | ReqLeave sid (Some roomId) => precondition rooms (Leave sid roomId)
  | ReqMove _ None | ReqReset _ None | ReqLeave _ None => false
  end.

(** ** One room across one event *)

(** The room after an accepted move, field by field as the handler writes it. *)
Definition moved (room : Room) (index : Z) (symbol : jsval) : Room :=
  let board' := <[index := symbol]> (board room) in
  mkRoom (players room) board'
    (if strict_eq symbol (JStr "X") then "O" else "X")
    (if truthy (checkWinner board') then finished else gameStatus room)
    (fullRoomId room) (lastStartingPlayer room).

(** The room a successful join leaves, as the handler writes it. *)
Definition joined (room : Room) (sid : string) : Room :=
  let lsp :=
    if String.eqb (lastStartingPlayer room) "" then "X"
    else lastStartingPlayer room in
  mkRoom (players room ++ [sid]) (board room) lsp playing (fullRoomId room) lsp.

(** The room a reset leaves, as the handler writes it. *)
Definition restarted (room : Room) : Room :=
  let lsp := if String.eqb (lastStartingPlayer room) "X" then "O" else "X" in
  mkRoom (players room) fresh_board lsp playing (fullRoomId room) lsp.

(** The room a departure of [sid] leaves, if it keeps a player. *)
Definition departed (sid : string) (room : Room) : option Room :=
  if (length (without sid (players room)) =? 0)%nat then None
  else Some (set_players room (without sid (players room))).

(** The room under a key after [disconnect]. *)
Definition disconnected (sid : string) (r : Room) : option Room :=
  if includes sid (players r) then
    if (length (without sid (players r)) =? 0)%nat then None
    else Some (set_players r (without sid (players r)))
  else Some r.

(** [roomId] is the internal id under which the registry finds room [key]. *)
Definition hits (rooms : Rooms) (roomId key : string) : bool :=
  match findByFullRoomId roomId rooms with
  | Some (k, _) => String.eqb k key
  | None => false
  end.

(** A join-room request of [sid] for [roomId] passes every check on [room],
    registered under [key]. *)
Definition joins (sid : string) (roomId : option string) (key : string)
    (room : Room) : bool :=
  match roomId with
  | None => false
  | Some s =>
      negb (String.eqb s "" || (String.length (trim s) =? 0)%nat)
      && String.eqb (toUpperCase (trim s)) key
      && negb (2 <=? length (players room))%nat
      && negb (includes sid (players room))
  end.

(** The event is a create-room that registers [key]. *)
Definition creates (rooms : Rooms) (ev : event) (key : string) : bool :=
  match ev with
  | CreateRoom _ _ rnd fuel => bool_decide (unique_id fuel rooms rnd 0 = Some key)
  | _ => false
  end.

(** What an event makes of the room registered under [key]; [None] when the
    room is removed. *)
Definition room_after (rooms : Rooms) (ev : event) (key : string) (room : Room)
  : option Room :=
  match ev with
  | CreateRoom _ _ _ _ => Some room
  | JoinRoom sid roomId =>
      Some (if joins sid roomId key room then joined room sid else room)
  | Move _ roomId index symbol =>
      Some (if hits rooms roomId key && bool_decide (legal_move room index symbol)
            then moved room index symbol else room)
  | Reset _ roomId => Some (if hits rooms roomId key then restarted room else room)
  | Leave sid roomId => if hits rooms roomId key then departed sid room else Some room
  | Disconnect sid => disconnected sid room
  end.

(** The socket whose departure from the room under [key] the event asks for. *)
Definition leaver (rooms : Rooms) (ev : event) (key : string) : option string :=
  match ev with
  | Leave sid roomId => if hits rooms roomId key then Some sid else None
  | Disconnect sid => Some sid
  | _ => None
  end.

(** The event is a reset naming the room registered under [key]. *)
Definition resets (rooms : Rooms) (ev : event) (key : string) : bool :=
  match ev with
  | Reset _ roomId => hits rooms roomId key
  | _ => false
  end.

(** The event starts a game in the room under [key]: a reset naming it, a
    join-room that succeeds on it, or the create-room that registers it. *)
Definition starts_game (rooms : Rooms) (ev : event) (key : string) : bool :=
  match ev with
  | Reset _ roomId => hits rooms roomId key
  | JoinRoom sid roomId =>
      match rooms_get key rooms with
      | Some room => joins sid roomId key room
      | None => false
      end
  | CreateRoom _ _ _ _ => creates rooms ev key
  | _ => false
  end.

(** The symbol of the move that the event gets accepted in the room
    registered under [key], if it is one. *)
Definition accepted_symbol (rooms : Rooms) (ev : event) (key : string)
  : option jsval :=
  match ev with
  | Move _ roomId index symbol =>
      match findByFullRoomId roomId rooms with
      | Some (k, room) =>
          if String.eqb k key && bool_decide (legal_move room index symbol)
          then Some symbol else None
      | None => None
      end
  | _ => None
  end.

(** ** Properties of rooms, boards and runs *)

Definition player_count_ok (rooms : Rooms) : Prop :=
  ∀ key room,
    rooms_get key rooms = Some room →
    (gameStatus room = waiting → length (players room) = 1%nat)
    ∧ (1 ≤ length (players room) ≤ 2)%nat.

(** The opener changes side. *)
Definition flipped (before after : string) : Prop :=
  (before = "X" ∧ after = "O") ∨ (before = "O" ∧ after = "X").

(** Mark [m] fills the three cells of a line. *)
Definition fills (b : gmap Z jsval) (m : string) (l : Z * Z * Z) : Prop :=
  get b l.1.1 = JStr m ∧ get b l.1.2 = JStr m ∧ get b l.2 = JStr m.

(** The line holds three equal marks. *)
Definition filled (b : gmap Z jsval) (l : Z * Z * Z) : Prop :=
  ∃ m, is_mark m ∧ fills b m l.

(** No cell is empty. *)
Definition full (b : gmap Z jsval) : Prop := ∀ i, 0 ≤ i < 9 → get b i ≠ JNull.

(** The symbols of the moves accepted in the room under [key] along a run,
    in order; [None] when the run meets an event that [stop] singles out
    (the end of the game) or a create-room that runs out of fuel. *)
Fixpoint moves_until (stop : Rooms → event → string → bool) (rooms : Rooms)
    (key : string) (evs : list event) : option (list jsval) :=
  match evs with
  | [] => Some []
  | ev :: evs' =>
      if stop rooms ev key then None
      else
        match handle rooms ev with
        | None => None
        | Some (rooms', _) =>
            match moves_until stop rooms' key evs' with
            | None => None
            | Some syms =>
                Some (match accepted_symbol rooms ev key with
                      | Some symbol => symbol :: syms
                      | None => syms
                      end)
            end
        end
  end.

(** The symbols are [s], its opposite, [s], ... *)
Fixpoint alternates (s : string) (syms : list jsval) : Prop :=
  match syms with
  | [] => True
  | symbol :: rest => symbol = JStr s ∧ alternates (opposite s) rest
  end.

(** ** Identifiers, notifications and counts *)

(** The characters of a room identifier. *)
Definition alphabet : list ascii := String.list_ascii_of_string chars.

Definition is_id_char (c : ascii) : bool := existsb (Ascii.eqb c) alphabet.

(** Every character of [s] is one of the identifier alphabet. *)
Definition over_alphabet (s : string) : bool :=
  forallb is_id_char (String.list_ascii_of_string s).

Definition is_dash (c : ascii) : bool := Ascii.eqb c "-"%char.

Definition has_dash (s : string) : bool :=
  existsb is_dash (String.list_ascii_of_string s).

(** What follows the last dash of [s] (all of [s] when it has none). *)
Fixpoint last_segment (s : string) : string :=
  match s with
  | EmptyString => EmptyString
  | String c s' =>
      if has_dash s' then last_segment s'
      else if is_dash c then s' else s
  end.

(** A room carries the internal identifier made at its creation from its
    key. *)
Definition id_ok (key : string) (room : Room) : Prop :=
  over_alphabet key = true
  ∧ ∃ now : N,
      fullRoomId room = "room-" +:+ pretty now +:+ "-" +:+ toLowerCase key.

(** The candidates the create-room loop draws, in order: the [n]-th is made
    of the six random values from [6 n] on. *)
Definition candidate (rnd : nat → nat) (n : nat) : string :=
  generateRoomId rnd (6 * n).

(** The effect is addressed to, or acts on, socket [sid] alone or a room's
    group as seen from [sid]. *)
Definition from_socket (sid : string) (e : effect) : Prop :=
  match e with
  | SocketJoin sid' _ | SocketLeave sid' _ | SocketEmit sid' _
  | SocketToEmit sid' _ _ => sid' = sid
  | IoToEmit _ _ => True
  end.

(** The notifications a disconnect of [sid] sends: one per room that has
    [sid] and keeps another player, in registry order. *)
Definition disconnect_notices (sid : string) (rooms : Rooms) : list effect :=
  omap (λ kr : string * Room,
          if includes sid (players kr.2)
             && negb (length (without sid (players kr.2)) =? 0)%nat
          then Some (SocketToEmit sid (fullRoomId kr.2) game_opponent_left)
          else None) rooms.

(** The number of rooms that satisfy [p]. *)
Definition count_rooms (p : Room → bool) (rooms : Rooms) : Z :=
  Z.of_nat (length (List.filter (λ kr, p kr.2) rooms)).

(** The number of empty cells of a board. *)
Definition empty_cells (b : gmap Z jsval) : nat :=
  size (filter (λ kv, kv.2 = JNull) b).

(** ** Concrete registries and boards used as test inputs *)

Definition rnd0 : nat → nat := λ _, 0%nat.

(** One room, just created by socket [a]. *)
Definition room_waiting : Room :=
  mkRoom ["a"] fresh_board "X" waiting "room-17-aaaaaa" "X".
Definition demo_waiting : Rooms := [("AAAAAA", room_waiting)].

(** The same room after socket [b] joined. *)
Definition room_playing : Room :=
  mkRoom ["a"; "b"] fresh_board "X" playing "room-17-aaaaaa" "X".
Definition demo_playing : Rooms := [("AAAAAA", room_playing)].

(** ... and after [X] played cell 0. *)
Definition room_moved : Room :=
  mkRoom ["a"; "b"] (<[0 := JStr "X"]> fresh_board) "O" playing
    "room-17-aaaaaa" "X".
Definition demo_moved : Rooms := [("AAAAAA", room_moved)].

(** The room of [demo_playing] after socket [b] left it. *)
Definition room_left : Room :=
  mkRoom ["a"] fresh_board "X" playing "room-17-aaaaaa" "X".
Definition demo_left : Rooms := [("AAAAAA", room_left)].

Definition demo_create : list event := [CreateRoom "a" 17 rnd0 0].
Definition demo_join : list event := demo_create ++ [JoinRoom "b" (Some " aaaaaa ")].
Definition demo_move : list event :=
  demo_join ++ [Move "a" "room-17-aaaaaa" 0 (JStr "X")].

Definition demo_leave : list event := demo_join ++ [Leave "b" "room-17-aaaaaa"].

(** A board with the top row of [X] and the middle row of [O]. *)
Definition two_rows : gmap Z jsval :=
  list_to_map [ (0, JStr "X"); (1, JStr "X"); (2, JStr "X");
                (3, JStr "O"); (4, JStr "O"); (5, JStr "O");
                (6, JNull); (7, JNull); (8, JNull) ].

(** ** Proof automation *)

(** Closing a decidable closed goal by evaluation. *)
Ltac by_eval :=
  lazymatch goal with
  | |- ?P => apply (bool_decide_unpack P); vm_compute; exact I
  end.

(** From [Some (handler ...) = Some (rooms', effs)] to [rooms'] being the
    handler's registry. *)
Ltac registry_of H :=
  injection H as H; apply (f_equal fst) in H; simpl in H;
  match type of H with _ = ?r => subst r end.

(** * Properties *)

(** ** The registry operations *)

Section registry.
Implicit Types (rooms : Rooms) (k key : string) (r room : Room).

Lemma rooms_has_elem k rooms : rooms_has k rooms = true ↔ k ∈ rooms.*1.
Proof.
  induction rooms as [|[k' r'] rest IH]; csimpl.
  - split; [done | by intros ?%elem_of_nil].
  - rewrite orb_true_iff, IH, elem_of_cons, String.eqb_eq. naive_solver.
Qed.

Lemma rooms_has_false k rooms : rooms_has k rooms = false ↔ k ∉ rooms.*1.
Proof.
  rewrite <- rooms_has_elem. destruct (rooms_has k rooms); naive_solver.
Qed.

Lemma rooms_get_elem k r rooms : rooms_get k rooms = Some r → (k, r) ∈ rooms.
Proof.
  induction rooms as [|[k' r'] rest IH]; csimpl; [done|].
  destruct (String.eqb_spec k' k) as [->|?].
  - intros [= ->]. left.
  - intros ?. right. auto.
Qed.

Lemma rooms_get_None k rooms : rooms_get k rooms = None ↔ k ∉ rooms.*1.
Proof.
  induction rooms as [|[k' r'] rest IH]; csimpl.
  - split; [by intros _ ?%elem_of_nil | done].
  - rewrite not_elem_of_cons. destruct (String.eqb_spec k' k); naive_solver.
Qed.

Lemma rooms_get_has k rooms :
  rooms_has k rooms = true ↔ is_Some (rooms_get k rooms).
Proof.
  rewrite rooms_has_elem, <- not_eq_None_Some, rooms_get_None.
  destruct (decide (k ∈ rooms.*1)); naive_solver.
Qed.

Lemma elem_rooms_get k r rooms :
  NoDup rooms.*1 → (k, r) ∈ rooms → rooms_get k rooms = Some r.
Proof.
  induction rooms as [|[k' r'] rest IH]; csimpl.
  - by intros _ ?%elem_of_nil.
  - intros [Hk Hnd]%NoDup_cons [[= -> ->]|Hin]%elem_of_cons.
    + by rewrite String.eqb_refl.
    + destruct (String.eqb_spec k' k) as [->|?]; [|by auto].
      destruct Hk. apply list_elem_of_fmap. by exists (k, r).
Qed.

Lemma rooms_get_set k k' r rooms :
  rooms_get k' (rooms_set k r rooms)
  = if String.eqb k k' then Some r else rooms_get k' rooms.
Proof.
  induction rooms as [|[k1 r1] rest IH]; csimpl.
  - by destruct (String.eqb k k').
  - destruct (String.eqb_spec k1 k) as [->|Hne]; csimpl.
    + by destruct (String.eqb k k').
    + rewrite IH. destruct (String.eqb_spec k1 k') as [->|?]; [|done].
      by rewrite (proj2 (String.eqb_neq k k')).
Qed.

Lemma rooms_set_keys k r rooms :
  (rooms_set k r rooms).*1
  = if rooms_has k rooms then rooms.*1 else rooms.*1 ++ [k].
Proof.
  induction rooms as [|[k1 r1] rest IH]; csimpl; [done|].
  destruct (String.eqb_spec k1 k) as [->|Hne]; csimpl; [done|].
  rewrite IH. by destruct (rooms_has k rest).
Qed.

Lemma rooms_set_elem k r rooms kr :
  kr ∈ rooms_set k r rooms → kr = (k, r) ∨ kr ∈ rooms.
Proof.
  induction rooms as [|[k1 r1] rest IH]; csimpl.
  - intros ?%list_elem_of_singleton. by left.
  - destruct (String.eqb_spec k1 k) as [->|Hne];
      rewrite !elem_of_cons; naive_solver.
Qed.

Lemma rooms_set_ok k r rooms :
  rooms_ok rooms → room_ok r → rooms_ok (rooms_set k r rooms).
Proof.
  intros [Hnd Hall] Hr. split.
  - rewrite rooms_set_keys. destruct (rooms_has k rooms) eqn:Hhas; [done|].
    apply NoDup_app. split_and!; [done | | apply NoDup_singleton].
    intros x Hx ->%list_elem_of_singleton.
    by apply rooms_has_false in Hhas.
  - apply Forall_forall. intros kr [->|Hin]%rooms_set_elem; [done|].
    rewrite Forall_forall in Hall. exact (Hall _ Hin).
Qed.

Lemma rooms_delete_elem k rooms kr : kr ∈ rooms_delete k rooms → kr ∈ rooms.
Proof.
  induction rooms as [|[k1 r1] rest IH]; csimpl; [done|].
  destruct (String.eqb_spec k1 k) as [->|Hne];
    rewrite ?elem_of_cons; naive_solver.
Qed.

Lemma rooms_get_delete k k' rooms :
  NoDup rooms.*1 →
  rooms_get k' (rooms_delete k rooms)
  = if String.eqb k k' then None else rooms_get k' rooms.
Proof.
  induction rooms as [|[k1 r1] rest IH]; csimpl.
  - by destruct (String.eqb k k').
  - intros [Hk Hnd]%NoDup_cons.
    destruct (String.eqb_spec k1 k) as [->|Hne]; csimpl.
    + destruct (String.eqb_spec k k') as [<-|?]; [|done].
      by apply rooms_get_None.
    + rewrite IH by done. destruct (String.eqb_spec k1 k') as [->|?]; [|done].
      by rewrite (proj2 (String.eqb_neq k k')).
Qed.

Lemma rooms_delete_keys k rooms : (rooms_delete k rooms).*1 `sublist_of` rooms.*1.
Proof.
  induction rooms as [|[k1 r1] rest IH]; csimpl; [done|].
  destruct (String.eqb_spec k1 k) as [->|Hne]; csimpl.
  - by apply sublist_cons.
  - by apply sublist_skip.
Qed.

Lemma rooms_delete_ok k rooms : rooms_ok rooms → rooms_ok (rooms_delete k rooms).
Proof.
  intros [Hnd Hall]. split.
  - eapply sublist_NoDup; [done | apply rooms_delete_keys].
  - apply Forall_forall. intros kr Hin%rooms_delete_elem.
    rewrite Forall_forall in Hall. exact (Hall _ Hin).
Qed.

Lemma find_elem roomId rooms key room :
  findByFullRoomId roomId rooms = Some (key, room) →
  (key, room) ∈ rooms ∧ fullRoomId room = roomId.
Proof.
  induction rooms as [|[k1 r1] rest IH]; csimpl; [done|].
  destruct (String.eqb_spec (fullRoomId r1) roomId) as [Heq|Hne].
  - intros [= -> ->]. split; [left | done].
  - intros [? ?]%IH. split; [by right | done].
Qed.

Lemma find_get roomId rooms key room :
  NoDup rooms.*1 →
  findByFullRoomId roomId rooms = Some (key, room) →
  rooms_get key rooms = Some room.
Proof. intros Hnd [? _]%find_elem. by apply elem_rooms_get. Qed.

(** Rewriting the room that a lookup by [fullRoomId] found, keeping its
    [fullRoomId], leaves it the room that the lookup finds. *)
Lemma find_set roomId rooms key room room' :
  NoDup rooms.*1 →
  findByFullRoomId roomId rooms = Some (key, room) →
  fullRoomId room' = fullRoomId room →
  findByFullRoomId roomId (rooms_set key room' rooms) = Some (key, room').
Proof.
  intros Hnd Hfind Hfull.
  induction rooms as [|[k1 r1] rest IH]; csimpl in *; [done|].
  apply NoDup_cons in Hnd as [Hk Hnd].
  destruct (String.eqb_spec (fullRoomId r1) roomId) as [Heq|Hne].
  - injection Hfind as -> ->. rewrite String.eqb_refl. csimpl.
    by rewrite Hfull, Heq, String.eqb_refl.
  - destruct (String.eqb_spec k1 key) as [->|Hnk].
    + apply find_elem in Hfind as [Hin _]. destruct Hk.
      apply list_elem_of_fmap. by exists (key, room).
    + csimpl. rewrite (proj2 (String.eqb_neq _ _) Hne). auto.
Qed.

Lemma rooms_ok_elem rooms k r : rooms_ok rooms → (k, r) ∈ rooms → room_ok r.
Proof. intros [_ Hall] Hin. rewrite Forall_forall in Hall. exact (Hall _ Hin). Qed.

Lemma rooms_ok_get rooms k r :
  rooms_ok rooms → rooms_get k rooms = Some r → room_ok r.
Proof. intros Hok ?%rooms_get_elem. by eapply rooms_ok_elem. Qed.

Lemma rooms_ok_find rooms roomId k r :
  rooms_ok rooms → findByFullRoomId roomId rooms = Some (k, r) → room_ok r.
Proof. intros Hok [? _]%find_elem. by eapply rooms_ok_elem. Qed.
End registry.

(** ** Boards *)

Section boards.
Implicit Types (b : gmap Z jsval) (i : Z) (v : jsval).

Lemma fresh_board_ok : board_ok fresh_board.
Proof. by_eval. Qed.

Lemma get_fresh_board i : 0 ≤ i < 9 → get fresh_board i = JNull.
Proof.
  intros Hi.
  assert (i = 0 ∨ i = 1 ∨ i = 2 ∨ i = 3 ∨ i = 4 ∨ i = 5 ∨ i = 6 ∨ i = 7
          ∨ i = 8) as Hcases by lia.
  repeat (destruct Hcases as [->|Hcases]; [reflexivity|]). by subst.
Qed.

Lemma elem_of_cells i : i ∈ cells ↔ 0 ≤ i < 9.
Proof.
  unfold cells. rewrite elem_of_list_to_set, !elem_of_cons, elem_of_nil. lia.
Qed.

(** Only a key that is present can read [null]. *)
Lemma get_null_lookup b i : get b i = JNull → b !! i = Some JNull.
Proof. unfold get. destruct (b !! i) as [v|]; simpl; [by intros ->|done]. Qed.

Lemma board_ok_get b i : board_ok b → 0 ≤ i < 9 → cell_ok (get b i).
Proof.
  intros [Hdom Hall] Hi%elem_of_cells. rewrite <- Hdom in Hi.
  apply elem_of_dom in Hi as [v Hv]. unfold get. rewrite Hv. simpl.
  by eapply Hall.
Qed.

Lemma board_ok_get_outside b i :
  board_ok b → ¬ 0 ≤ i < 9 → get b i = JUndefined.
Proof.
  intros [Hdom Hall] Hi. unfold get.
  destruct (b !! i) as [v|] eqn:Hv; [|done].
  destruct Hi. apply elem_of_cells. rewrite <- Hdom. apply elem_of_dom. eauto.
Qed.

(** A write to a cell that reads [null] lands inside the board. *)
Lemma board_ok_insert b i v :
  board_ok b → get b i = JNull → cell_ok v → board_ok (<[i:=v]> b).
Proof.
  intros [Hdom Hall] Hnull%get_null_lookup Hv. split.
  - rewrite dom_insert_L, <- Hdom.
    assert (i ∈ dom b) by (apply elem_of_dom; eauto). set_solver.
  - by apply map_Forall_insert_2.
Qed.

Lemma get_insert b i j v :
  get (<[i:=v]> b) j = if decide (i = j) then v else get b j.
Proof. unfold get. rewrite lookup_insert. by case_decide. Qed.
End boards.

(** ** The invariant holds in every reachable registry *)

Section invariant.
Implicit Types (rooms : Rooms) (sid roomId : string).

Lemma without_length sid (ps : list string) :
  (length (without sid ps) ≤ length ps)%nat.
Proof. apply length_filter. Qed.

Lemma without_elem sid (ps : list string) x :
  x ∈ without sid ps ↔ x ∈ ps ∧ x ≠ sid.
Proof. unfold without. rewrite list_elem_of_filter. naive_solver. Qed.

Lemma without_not_elem sid (ps : list string) :
  sid ∉ ps → without sid ps = ps.
Proof.
  unfold without. induction ps as [|p ps IH]; [done|].
  intros [Hp Hps]%not_elem_of_cons. rewrite filter_cons.
  destruct (decide (p ≠ sid)) as [_|Hn]; [by rewrite IH|].
  destruct Hn. congruence.
Qed.

Lemma set_players_ok r ps :
  room_ok r → ps ≠ [] → (length ps ≤ length (players r))%nat →
  room_ok (set_players r ps).
Proof.
  intros [] Hne Hlen. split; simpl; try done; [lia|].
  intros Hw. specialize (ok_waiting0 Hw). destruct ps; simpl in *; [done|lia].
Qed.

Lemma length_zero_nil {A} (l : list A) : (length l =? 0)%nat = true ↔ l = [].
Proof. rewrite Nat.eqb_eq. apply length_zero_iff_nil. Qed.

Lemma unique_id_fresh fuel rooms rnd k id :
  unique_id fuel rooms rnd k = Some id → rooms_has id rooms = false.
Proof.
  revert k. induction fuel as [|fuel IH]; intros k; simpl;
    destruct (rooms_has (generateRoomId rnd k) rooms) eqn:Hhas;
    try done; try (by intros [= <-]).
  apply IH.
Qed.

Lemma on_create_room_ok sid now rnd fuel rooms rooms' effs :
  rooms_ok rooms →
  on_create_room sid now rnd fuel rooms = Some (rooms', effs) →
  rooms_ok rooms'.
Proof.
  intros Hok. unfold on_create_room.
  destruct (unique_id fuel rooms rnd 0) as [id|]; [|done].
  intros [= <- <-]. apply rooms_set_ok; [done|].
  split; simpl; try done; [lia | apply fresh_board_ok | by left | by left].
Qed.

Lemma on_join_room_ok sid (roomId : option string) rooms :
  rooms_ok rooms → rooms_ok (on_join_room sid roomId rooms).1.
Proof.
  intros Hok. unfold on_join_room.
  destruct roomId as [roomId|]; [|done].
  destruct (_ || _); [done|].
  destruct (rooms_get _ rooms) as [room|] eqn:Hget; [|done].
  destruct (2 <=? length (players room))%nat eqn:Hlen; [done|].
  destruct (includes sid (players room)); [done|]. simpl.
  apply Nat.leb_gt in Hlen.
  destruct (rooms_ok_get _ _ _ Hok Hget).
  apply rooms_set_ok; [done|].
  assert (is_mark (if String.eqb (lastStartingPlayer room) "" then "X"
                   else lastStartingPlayer room)).
  { destruct (String.eqb _ ""); [by left | done]. }
  split; simpl; try done.
  - by destruct (players room).
  - rewrite length_app. simpl. lia.
Qed.

Lemma on_move_ok sid roomId index symbol rooms :
  rooms_ok rooms → rooms_ok (on_move sid roomId index symbol rooms).1.
Proof.
  intros Hok. unfold on_move.
  destruct (findByFullRoomId roomId rooms) as [[key room]|] eqn:Hfind; [|done].
  destruct (bool_decide (gameStatus room = playing)) eqn:Hst; [|done]. simpl.
  destruct (strict_eq (JStr (currentPlayer room)) symbol) eqn:Hturn; [|done].
  destruct (strict_eq (get (board room) index) JNull) eqn:Hcell; [|done].
  simpl. apply bool_decide_eq_true in Hst, Hturn, Hcell.
  destruct (rooms_ok_find _ _ _ _ Hok Hfind).
  apply rooms_set_ok; [done|].
  split; simpl; try done.
  - destruct (truthy _); [done|]. by rewrite Hst.
  - apply board_ok_insert; [done..|].
    subst symbol. destruct ok_current0 as [->| ->]; [right; by left|].
    right; by right.
  - destruct (strict_eq symbol (JStr "X")); [by right | by left].
Qed.

Lemma on_reset_ok sid roomId rooms :
  rooms_ok rooms → rooms_ok (on_reset sid roomId rooms).1.
Proof.
  intros Hok. unfold on_reset.
  destruct (findByFullRoomId roomId rooms) as [[key room]|] eqn:Hfind; [|done].
  simpl. destruct (rooms_ok_find _ _ _ _ Hok Hfind).
  apply rooms_set_ok; [done|].
  assert (is_mark (if String.eqb (lastStartingPlayer room) "X" then "O"
                   else "X")).
  { destruct (String.eqb _ "X"); [by right | by left]. }
  split; simpl; try done. apply fresh_board_ok.
Qed.

Lemma on_leave_ok sid roomId rooms :
  rooms_ok rooms → rooms_ok (on_leave sid roomId rooms).1.
Proof.
  intros Hok. unfold on_leave.
  destruct (findByFullRoomId roomId rooms) as [[key room]|] eqn:Hfind; [|done].
  destruct (length (without sid (players room)) =? 0)%nat eqn:Hlen; simpl.
  - by apply rooms_delete_ok.
  - apply rooms_set_ok; [done|]. apply set_players_ok.
    + by eapply rooms_ok_find.
    + intros Hnil. by rewrite Hnil in Hlen.
    + apply without_length.
Qed.

Lemma set_players_same r : set_players r (players r) = r.
Proof. by destruct r. Qed.

(** What [disconnect] leaves of the registry: the rooms that keep a player,
    each without the disconnected socket. *)
Lemma on_disconnect_elem sid rooms k r :
  (k, r) ∈ (on_disconnect sid rooms).1 →
  ∃ r0, (k, r0) ∈ rooms
        ∧ r = set_players r0 (without sid (players r0))
        ∧ (players r0 ≠ [] → players r ≠ []).
Proof.
  induction rooms as [|[k1 r1] rest IH]; simpl.
  - by intros ?%elem_of_nil.
  - destruct (on_disconnect sid rest) as [rest' effs]. simpl in IH.
    assert (∀ P : Room → Prop, (∃ r0, (k, r0) ∈ rest ∧ P r0) →
              ∃ r0, (k, r0) ∈ (k1, r1) :: rest ∧ P r0) as Hlift.
    { intros P (r0 & Hin & HP). exists r0. split; [by right | done]. }
    destruct (includes sid (players r1)) eqn:Hinc.
    + destruct (length (without sid (players r1)) =? 0)%nat eqn:Hlen; simpl.
      * intros Hin. apply Hlift, IH, Hin.
      * intros [[= -> ->]|Hin]%elem_of_cons; [|apply Hlift, IH, Hin].
        exists r1. split_and!; [left | done |].
        simpl. intros _ Hnil. by rewrite Hnil in Hlen.
    + simpl. intros [[= -> ->]|Hin]%elem_of_cons; [|apply Hlift, IH, Hin].
      apply bool_decide_eq_false in Hinc.
      exists r1. rewrite (without_not_elem _ _ Hinc), set_players_same.
      split_and!; [left | done | done].
Qed.

Lemma on_disconnect_keys sid rooms :
  (on_disconnect sid rooms).1.*1 `sublist_of` rooms.*1.
Proof.
  induction rooms as [|[k1 r1] rest IH]; csimpl; [done|].
  destruct (on_disconnect sid rest) as [rest' effs]. simpl in IH.
  destruct (includes sid (players r1));
    [destruct (length (without sid (players r1)) =? 0)%nat|]; csimpl;
    by (apply sublist_skip || apply sublist_cons).
Qed.

Lemma rooms_get_disconnect sid rooms k :
  NoDup rooms.*1 →
  rooms_get k (on_disconnect sid rooms).1
  = rooms_get k rooms ≫= disconnected sid.
Proof.
  induction rooms as [|[k1 r1] rest IH]; csimpl; [done|].
  intros [Hk Hnd]%NoDup_cons. specialize (IH Hnd).
  destruct (on_disconnect sid rest) as [rest' effs]. simpl in IH.
  unfold disconnected at 1.
  destruct (String.eqb_spec k1 k) as [->|Hne].
  - simpl. destruct (includes sid (players r1));
      [destruct (length (without sid (players r1)) =? 0)%nat|]; simpl;
      rewrite ?String.eqb_refl; try done.
    rewrite IH. by apply rooms_get_None in Hk as ->.
  - destruct (includes sid (players r1));
      [destruct (length (without sid (players r1)) =? 0)%nat|]; simpl;
      rewrite ?(proj2 (String.eqb_neq _ _) Hne); done.
Qed.

Lemma on_disconnect_ok sid rooms :
  rooms_ok rooms → rooms_ok (on_disconnect sid rooms).1.
Proof.
  intros [Hnd Hall]. split.
  - eapply sublist_NoDup; [done | apply on_disconnect_keys].
  - apply Forall_forall. intros [k r] (r0 & Hin & -> & Hpos)%on_disconnect_elem.
    rewrite Forall_forall in Hall. specialize (Hall _ Hin). simpl in *.
    apply set_players_ok; [done | | apply without_length].
    apply Hpos. by destruct Hall.
Qed.

(** Every handler preserves the registry invariant. *)
Lemma handle_ok rooms ev rooms' effs :
  rooms_ok rooms → handle rooms ev = Some (rooms', effs) → rooms_ok rooms'.
Proof.
  intros Hok. destruct ev; simpl.
  - by apply on_create_room_ok.
  - intros [= Heq]. apply (f_equal fst) in Heq. simpl in Heq. subst rooms'.
    by apply on_join_room_ok.
  - intros [= Heq]. apply (f_equal fst) in Heq. simpl in Heq. subst rooms'.
    by apply on_move_ok.
  - intros [= Heq]. apply (f_equal fst) in Heq. simpl in Heq. subst rooms'.
    by apply on_reset_ok.
  - intros [= Heq]. apply (f_equal fst) in Heq. simpl in Heq. subst rooms'.
    by apply on_leave_ok.
  - intros [= Heq]. apply (f_equal fst) in Heq. simpl in Heq. subst rooms'.
    by apply on_disconnect_ok.
Qed.

Lemma rooms_ok_nil : rooms_ok [].
Proof. split; [apply NoDup_nil_2 | apply Forall_nil_2]. Qed.

Lemma reachable_ok rooms : reachable rooms → rooms_ok rooms.
Proof.
  induction 1 as [|rooms ev rooms' effs _ IH Hstep];
    [apply rooms_ok_nil | by eapply handle_ok].
Qed.

Lemma run_reachable_from rooms evs rooms' :
  reachable rooms → run rooms evs = Some rooms' → reachable rooms'.
Proof.
  revert rooms. induction evs as [|ev evs IH]; intros rooms Hr; simpl.
  - by intros [= <-].
  - destruct (handle rooms ev) as [[rooms1 effs]|] eqn:Hstep; [|done].
    apply IH. by eapply reachable_step.
Qed.

(** A registry produced by running events from the empty one is reachable. *)
Lemma run_reachable evs rooms : run [] evs = Some rooms → reachable rooms.
Proof. apply run_reachable_from, reachable_init. Qed.
End invariant.

(** ** The test inputs are reachable *)

Lemma demo_waiting_reachable : reachable demo_waiting.
Proof. apply (run_reachable demo_create). vm_compute. reflexivity. Defined.

Lemma demo_playing_reachable : reachable demo_playing.
Proof. apply (run_reachable demo_join). vm_compute. reflexivity. Defined.

Lemma demo_moved_reachable : reachable demo_moved.
Proof. apply (run_reachable demo_move). vm_compute. reflexivity. Defined.

(** The scenario of the specification: after create and join, the moves
    X@0, O@4, X@1, O@5, X@2 give the top row to [X] and finish the game; a
    further move is refused; a reset hands the opening to [O]; when both
    players have left, the room is gone. *)
Example scenario_top_row :
  let rid := "room-17-aaaaaa" in
  let game :=
    demo_join ++ [ Move "a" rid 0 (JStr "X"); Move "b" rid 4 (JStr "O");
                   Move "a" rid 1 (JStr "X"); Move "b" rid 5 (JStr "O");
                   Move "a" rid 2 (JStr "X") ] in
  ((λ rooms, (checkWinner ∘ board <$> rooms_get "AAAAAA" rooms,
              gameStatus <$> rooms_get "AAAAAA" rooms,
              (on_move "b" rid 3 (JStr "O") rooms).2)) <$> run [] game)
  = Some (Some (JStr "X"), Some finished,
          [SocketEmit "b" (game_error "Game is not in progress")])
  ∧ ((λ rooms, (currentPlayer <$> rooms_get "AAAAAA" rooms,
                gameStatus <$> rooms_get "AAAAAA" rooms))
       <$> run [] (game ++ [Reset "a" rid]))
    = Some (Some "O", Some playing)
  ∧ run [] (game ++ [Reset "a" rid; Leave "a" rid; Leave "b" rid]) = Some [].
Proof. by vm_compute. Qed.

(** ** Moves *)

Lemma on_move_legal sid roomId index symbol rooms key room :
  findByFullRoomId roomId rooms = Some (key, room) →
  legal_move room index symbol →
  on_move sid roomId index symbol rooms
  = (rooms_set key (moved room index symbol) rooms,
     [IoToEmit roomId
        (game_move (board (moved room index symbol))
           (currentPlayer (moved room index symbol))
           (checkWinner (board (moved room index symbol))))]).
Proof.
  intros Hfind (Hst & Hturn & Hcell). unfold on_move. rewrite Hfind.
  rewrite (bool_decide_eq_true_2 _ Hst). simpl.
  unfold strict_eq at 1. rewrite bool_decide_eq_true_2 by done. simpl.
  unfold strict_eq at 1. rewrite bool_decide_eq_true_2 by done. done.
Qed.

Lemma on_move_illegal sid roomId index symbol rooms key room :
  findByFullRoomId roomId rooms = Some (key, room) →
  ¬ legal_move room index symbol →
  on_move sid roomId index symbol rooms
  = (rooms, [SocketEmit sid (game_error (move_error room symbol))]).
Proof.
  intros Hfind Hno. unfold on_move, move_error. rewrite Hfind.
  destruct (bool_decide (gameStatus room = playing)) eqn:Hst; [|done]. simpl.
  destruct (strict_eq (JStr (currentPlayer room)) symbol) eqn:Hturn; [|done].
  destruct (strict_eq (get (board room) index) JNull) eqn:Hcell; [|done].
  apply bool_decide_eq_true in Hst, Hturn, Hcell. destruct Hno. by split_and!.
Qed.

(** C1.  For a room found by its internal id, a move is accepted exactly when
    the room is playing, the symbol is the current player's and the cell
    reads empty; an accepted move stores the room rewritten by the move and
    broadcasts it; any other move leaves the registry as it was and answers
    the sender, and only the sender, with one error. *)
Theorem move_accepted_iff_legal sid roomId index symbol rooms key room :
  findByFullRoomId roomId rooms = Some (key, room) →
  (accepted (on_move sid roomId index symbol rooms).2 = true
   ↔ legal_move room index symbol)
  ∧ (legal_move room index symbol →
     (on_move sid roomId index symbol rooms).1
     = rooms_set key (moved room index symbol) rooms)
  ∧ (¬ legal_move room index symbol →
     ∃ msg, on_move sid roomId index symbol rooms
            = (rooms, [SocketEmit sid (game_error msg)])).
Proof.
  intros Hfind. destruct (decide (legal_move room index symbol)) as [Hl|Hn].
  - rewrite (on_move_legal _ _ _ _ _ _ _ Hfind Hl). simpl. by split_and!.
  - rewrite (on_move_illegal _ _ _ _ _ _ _ Hfind Hn). simpl. split_and!.
    + split; [done | by intros ?].
    + by intros ?.
    + eauto.
Qed.

Lemma move_accepted_iff_legal_witness :
  (accepted (on_move "a" "room-17-aaaaaa" 0 (JStr "X") demo_playing).2 = true
   ↔ legal_move room_playing 0 (JStr "X")).
Proof.
  apply (move_accepted_iff_legal "a" "room-17-aaaaaa" 0 (JStr "X") demo_playing
           "AAAAAA" room_playing).
  reflexivity.
Defined.

(** C9.  What a move or a reset does to the registry, what it broadcasts to
    the group and what it answers do not depend on which socket sent it:
    the handlers never look at the sender, player of the room or not. *)
Theorem move_reset_ignore_sender sid1 sid2 roomId index symbol rooms :
  ((on_move sid1 roomId index symbol rooms).1
   = (on_move sid2 roomId index symbol rooms).1
   ∧ group_emits (on_move sid1 roomId index symbol rooms).2
     = group_emits (on_move sid2 roomId index symbol rooms).2
   ∧ direct_replies (on_move sid1 roomId index symbol rooms).2
     = direct_replies (on_move sid2 roomId index symbol rooms).2)
  ∧ ((on_reset sid1 roomId rooms).1 = (on_reset sid2 roomId rooms).1
     ∧ group_emits (on_reset sid1 roomId rooms).2
       = group_emits (on_reset sid2 roomId rooms).2
     ∧ direct_replies (on_reset sid1 roomId rooms).2
       = direct_replies (on_reset sid2 roomId rooms).2).
Proof.
  unfold on_move, on_reset.
  destruct (findByFullRoomId roomId rooms) as [[key room]|]; [|done].
  split; [|done].
  destruct (bool_decide (gameStatus room = playing)); [|done]. simpl.
  destruct (strict_eq (JStr (currentPlayer room)) symbol); [|done].
  by destruct (strict_eq (get (board room) index) JNull).
Qed.

(** C10, as stated, fails: a move outside the board sent to a room that is
    still waiting is answered with the not-in-progress error. *)
Lemma move_outside_board_other_error :
  reachable demo_waiting
  ∧ ¬ (0 ≤ 9 < 9)
  ∧ on_move "b" "room-17-aaaaaa" 9 (JStr "X") demo_waiting
    = (demo_waiting, [SocketEmit "b" (game_error "Game is not in progress")])
  ∧ (on_move "b" "room-17-aaaaaa" 9 (JStr "X") demo_waiting).2
    ≠ [SocketEmit "b" (game_error "Cell already occupied")].
Proof.
  split_and!; [apply demo_waiting_reachable | lia | reflexivity | discriminate].
Qed.

(** C10, amended.  In a reachable registry a move whose index is outside 0..8
    is rejected with one error reply to the sender and the registry is left
    as it was, so every board keeps its nine cells and nothing is written
    outside them.  The reply is the error of the first check that fails:
    room not found when no room has the internal id; game not in progress
    when the room is not playing; not your turn when it is playing and the
    symbol is not the current player's; and the cell-occupied error when
    the room is found, is playing and the symbol is the current player's. *)
Theorem move_outside_board_rejected sid roomId index symbol rooms :
  reachable rooms →
  ¬ (0 ≤ index < 9) →
  ∃ msg,
    on_move sid roomId index symbol rooms
    = (rooms, [SocketEmit sid (game_error msg)])
    ∧ match findByFullRoomId roomId rooms with
      | None => msg = "Room not found"
      | Some (_, room) =>
          (gameStatus room ≠ playing → msg = "Game is not in progress")
          ∧ (gameStatus room = playing →
             symbol ≠ JStr (currentPlayer room) → msg = "Not your turn")
          ∧ (gameStatus room = playing →
             symbol = JStr (currentPlayer room) →
             msg = "Cell already occupied")
      end
    ∧ (∀ key room,
         rooms_get key (on_move sid roomId index symbol rooms).1 = Some room →
         dom (board room) = cells).
Proof.
  intros Hok%reachable_ok Hout.
  assert (∀ key room, rooms_get key rooms = Some room → dom (board room) = cells)
    as Hdom.
  { intros key room Hget.
    by destruct (rooms_ok_get _ _ _ Hok Hget) as [_ _ _ [? _] _ _]. }
  destruct (findByFullRoomId roomId rooms) as [[key room]|] eqn:Hfind.
  - assert (¬ legal_move room index symbol) as Hn.
    { intros (_ & _ & Hcell).
      rewrite board_ok_get_outside in Hcell; [done | | done].
      by destruct (rooms_ok_find _ _ _ _ Hok Hfind). }
    rewrite (on_move_illegal _ _ _ _ _ _ _ Hfind Hn).
    exists (move_error room symbol). split_and!; [done | | | | done];
      unfold move_error, strict_eq.
    + intros Hst. by rewrite (bool_decide_eq_false_2 _ Hst).
    + intros Hst Hturn. rewrite (bool_decide_eq_true_2 _ Hst). cbn [negb].
      rewrite bool_decide_eq_false_2; [done | congruence].
    + intros Hst Hturn. rewrite (bool_decide_eq_true_2 _ Hst). cbn [negb].
      by rewrite bool_decide_eq_true_2.
  - unfold on_move. rewrite Hfind. by exists "Room not found".
Qed.

Lemma move_outside_board_rejected_witness :
  ∃ msg,
    on_move "a" "room-17-aaaaaa" 9 (JStr "X") demo_playing
    = (demo_playing, [SocketEmit "a" (game_error msg)])
    ∧ match findByFullRoomId "room-17-aaaaaa" demo_playing with
      | None => msg = "Room not found"
      | Some (_, room) =>
          (gameStatus room ≠ playing → msg = "Game is not in progress")
          ∧ (gameStatus room = playing →
             JStr "X" ≠ JStr (currentPlayer room) → msg = "Not your turn")
          ∧ (gameStatus room = playing →
             JStr "X" = JStr (currentPlayer room) →
             msg = "Cell already occupied")
      end
    ∧ (∀ key room,
         rooms_get key
           (on_move "a" "room-17-aaaaaa" 9 (JStr "X") demo_playing).1
         = Some room →
         dom (board room) = cells).
Proof.
  apply (move_outside_board_rejected "a" "room-17-aaaaaa" 9 (JStr "X")
           demo_playing); [apply demo_playing_reachable | lia].
Defined.

(** ** The handlers, room by room *)

Section one_room.
Context (rooms : Rooms) (key : string).
Hypothesis Hok : rooms_ok rooms.

Lemma hits_find roomId room :
  rooms_get key rooms = Some room →
  hits rooms roomId key = true →
  findByFullRoomId roomId rooms = Some (key, room).
Proof.
  unfold hits. intros Hget.
  destruct (findByFullRoomId roomId rooms) as [[k r]|] eqn:Hfind; [|done].
  intros ->%String.eqb_eq. apply find_get in Hfind; [|by destruct Hok].
  congruence.
Qed.

Lemma find_hits roomId k r :
  findByFullRoomId roomId rooms = Some (k, r) →
  hits rooms roomId key = String.eqb k key ∧ rooms_get k rooms = Some r.
Proof.
  intros Hfind. unfold hits. rewrite Hfind. split; [done|].
  apply find_get in Hfind; [done | by destruct Hok].
Qed.

Lemma find_none_hits roomId :
  findByFullRoomId roomId rooms = None → hits rooms roomId key = false.
Proof. unfold hits. by intros ->. Qed.

(** The registry-level handlers act on each room as [room_after] says. *)
Lemma handle_room ev rooms' effs room :
  handle rooms ev = Some (rooms', effs) →
  rooms_get key rooms = Some room →
  rooms_get key rooms' = room_after rooms ev key room.
Proof.
  intros Hstep Hget. destruct ev as [sid now rnd fuel|sid roomId|sid roomId index symbol|sid roomId|sid roomId|sid]; simpl in *.
  - unfold on_create_room in Hstep.
    destruct (unique_id fuel rooms rnd 0) as [id|] eqn:Hid; [|done].
    injection Hstep as <- _. rewrite rooms_get_set.
    apply unique_id_fresh, rooms_has_false in Hid.
    destruct (String.eqb_spec id key) as [->|?]; [|done].
    destruct Hid. apply rooms_get_elem in Hget.
    apply list_elem_of_fmap. by exists (key, room).
  - registry_of Hstep. unfold on_join_room, joins.
    destruct roomId as [s|]; [|exact Hget].
    destruct (_ || _); [exact Hget|]. cbn [negb andb].
    destruct (String.eqb_spec (toUpperCase (trim s)) key) as [->|Hne];
      cbn [andb].
    + rewrite Hget.
      destruct (2 <=? length (players room))%nat; [exact Hget|].
      destruct (includes sid (players room)); [exact Hget|].
      cbn [negb andb fst]. by rewrite rooms_get_set, String.eqb_refl.
    + destruct (rooms_get (toUpperCase (trim s)) rooms) as [r|];
        [|exact Hget].
      destruct (2 <=? length (players r))%nat; [exact Hget|].
      destruct (includes sid (players r)); [exact Hget|].
      cbn [fst]. by rewrite rooms_get_set, (proj2 (String.eqb_neq _ _) Hne).
  - registry_of Hstep.
    destruct (findByFullRoomId roomId rooms) as [[k r]|] eqn:Hfind.
    + destruct (find_hits _ _ _ Hfind) as [-> Hgetk].
      destruct (decide (legal_move r index symbol)) as [Hl|Hn].
      * rewrite (on_move_legal _ _ _ _ _ _ _ Hfind Hl). simpl.
        rewrite rooms_get_set.
        destruct (String.eqb_spec k key) as [->|?]; [|(simpl; by rewrite ?Hget)].
        assert (r = room) as -> by congruence.
        by rewrite (bool_decide_eq_true_2 _ Hl).
      * rewrite (on_move_illegal _ _ _ _ _ _ _ Hfind Hn). simpl. rewrite Hget.
        destruct (String.eqb_spec k key) as [->|?]; [|done].
        assert (r = room) as -> by congruence.
        by rewrite (bool_decide_eq_false_2 _ Hn).
    + unfold on_move. rewrite Hfind, (find_none_hits _ Hfind). simpl.
      (simpl; by rewrite ?Hget).
  - registry_of Hstep. unfold on_reset.
    destruct (findByFullRoomId roomId rooms) as [[k r]|] eqn:Hfind.
    + destruct (find_hits _ _ _ Hfind) as [-> Hgetk]. simpl.
      rewrite rooms_get_set.
      destruct (String.eqb_spec k key) as [->|?]; [|(simpl; by rewrite ?Hget)].
      by assert (r = room) as -> by congruence.
    + rewrite (find_none_hits _ Hfind). simpl. (simpl; by rewrite ?Hget).
  - registry_of Hstep. unfold on_leave, departed.
    destruct (findByFullRoomId roomId rooms) as [[k r]|] eqn:Hfind.
    + destruct (find_hits _ _ _ Hfind) as [-> Hgetk].
      destruct (String.eqb_spec k key) as [->|Hne].
      * assert (r = room) as -> by congruence.
        destruct (length (without sid (players room)) =? 0)%nat; simpl.
        -- rewrite rooms_get_delete by (by destruct Hok).
           by rewrite String.eqb_refl.
        -- by rewrite rooms_get_set, String.eqb_refl.
      * destruct (length (without sid (players r)) =? 0)%nat; simpl.
        -- rewrite rooms_get_delete by (by destruct Hok).
           by rewrite (proj2 (String.eqb_neq _ _) Hne).
        -- by rewrite rooms_get_set, (proj2 (String.eqb_neq _ _) Hne).
    + rewrite (find_none_hits _ Hfind). simpl. (simpl; by rewrite ?Hget).
  - registry_of Hstep.
    rewrite rooms_get_disconnect by (by destruct Hok). (simpl; by rewrite ?Hget).
Qed.

(** A key that is not registered stays so, unless a create-room takes it. *)
Lemma handle_absent ev rooms' effs :
  handle rooms ev = Some (rooms', effs) →
  rooms_get key rooms = None →
  creates rooms ev key = false →
  rooms_get key rooms' = None.
Proof.
  intros Hstep Hget Hcr.
  assert (∀ k r, rooms_get k rooms = Some r → String.eqb k key = false) as Hne.
  { intros k r Hk. apply String.eqb_neq. intros ->. congruence. }
  destruct ev as [sid now rnd fuel|sid roomId|sid roomId index symbol|sid roomId|sid roomId|sid]; simpl in *.
  - unfold on_create_room in Hstep.
    destruct (unique_id fuel rooms rnd 0) as [id|] eqn:Hid; [|done].
    injection Hstep as <- _. rewrite rooms_get_set.
    apply bool_decide_eq_false in Hcr.
    destruct (String.eqb_spec id key) as [->|?]; [done|done].
  - registry_of Hstep. unfold on_join_room.
    destruct roomId as [s|]; [|done].
    destruct (_ || _); [done|].
    destruct (rooms_get (toUpperCase (trim s)) rooms) as [r|] eqn:Hr; [|done].
    destruct (2 <=? length (players r))%nat; [done|].
    destruct (includes sid (players r)); [done|]. simpl.
    by rewrite rooms_get_set, (Hne _ _ Hr).
  - registry_of Hstep. unfold on_move.
    destruct (findByFullRoomId roomId rooms) as [[k r]|] eqn:Hfind; [|done].
    destruct (find_hits _ _ _ Hfind) as [_ Hgetk].
    destruct (negb _); [done|]. destruct (negb _); [done|].
    destruct (negb _); [done|]. simpl.
    by rewrite rooms_get_set, (Hne _ _ Hgetk).
  - registry_of Hstep. unfold on_reset.
    destruct (findByFullRoomId roomId rooms) as [[k r]|] eqn:Hfind; [|done].
    destruct (find_hits _ _ _ Hfind) as [_ Hgetk]. simpl.
    by rewrite rooms_get_set, (Hne _ _ Hgetk).
  - registry_of Hstep. unfold on_leave.
    destruct (findByFullRoomId roomId rooms) as [[k r]|] eqn:Hfind; [|done].
    destruct (find_hits _ _ _ Hfind) as [_ Hgetk].
    destruct (length (without sid (players r)) =? 0)%nat; simpl.
    + rewrite rooms_get_delete by (by destruct Hok).
      by rewrite (Hne _ _ Hgetk).
    + by rewrite rooms_get_set, (Hne _ _ Hgetk).
  - registry_of Hstep.
    rewrite rooms_get_disconnect by (by destruct Hok). by rewrite Hget.
Qed.
End one_room.

(** ** Player counts *)

Lemma demo_left_reachable : reachable demo_left.
Proof. apply (run_reachable demo_leave). vm_compute. reflexivity. Defined.

(** C2, as stated, fails: after create, join and the leave of the second
    player the room is still [playing] and has one player. *)
Lemma playing_with_one_player :
  run [] [CreateRoom "a" 17 rnd0 0; JoinRoom "b" (Some " aaaaaa ");
          Leave "b" "room-17-aaaaaa"] = Some demo_left
  ∧ reachable demo_left
  ∧ (gameStatus <$> rooms_get "AAAAAA" demo_left) = Some playing
  ∧ (length ∘ players <$> rooms_get "AAAAAA" demo_left) = Some 1%nat.
Proof.
  split_and!; [by vm_compute | apply demo_left_reachable | done | done].
Qed.

Lemma rooms_ok_player_count rooms : rooms_ok rooms → player_count_ok rooms.
Proof.
  intros Hok key room Hget. destruct (rooms_ok_get _ _ _ Hok Hget).
  split; [done|]. destruct (players room); simpl in *; [done | lia].
Qed.

(** C2, amended.  In every reachable registry, and after every further
    event, a waiting room has exactly 1 player and every room, playing or
    finished, has 1 or 2 players; the join that starts play leaves the room
    [playing] with exactly 2 players.  (Leave and disconnect do not touch
    the status, and reset does not look at the players.) *)
Theorem player_count_by_status rooms ev rooms' effs :
  reachable rooms →
  handle rooms ev = Some (rooms', effs) →
  player_count_ok rooms
  ∧ player_count_ok rooms'
  ∧ (∀ sid roomId key room room',
       ev = JoinRoom sid roomId →
       rooms_get key rooms = Some room →
       joins sid roomId key room = true →
       rooms_get key rooms' = Some room' →
       gameStatus room' = playing ∧ length (players room') = 2%nat).
Proof.
  intros Hok%reachable_ok Hstep. split_and!.
  - by apply rooms_ok_player_count.
  - eapply rooms_ok_player_count, handle_ok; eauto.
  - intros sid roomId key room room' -> Hget Hjoins Hget'.
    rewrite (handle_room _ _ Hok _ _ _ _ Hstep Hget) in Hget'. simpl in Hget'.
    rewrite Hjoins in Hget'. injection Hget' as <-. split; [done|]. simpl.
    destruct (rooms_ok_player_count _ Hok _ _ Hget) as [_ Hlen].
    unfold joins in Hjoins. destruct roomId as [s|]; [|done].
    apply andb_true_iff in Hjoins as [Hjoins _].
    apply andb_true_iff in Hjoins as [_ Hfull].
    apply negb_true_iff, Nat.leb_gt in Hfull.
    rewrite length_app. simpl. lia.
Qed.

Lemma player_count_by_status_witness :
  player_count_ok demo_waiting
  ∧ player_count_ok (on_join_room "b" (Some "aaaaaa") demo_waiting).1
  ∧ (∀ sid roomId key room room',
       JoinRoom "b" (Some "aaaaaa") = JoinRoom sid roomId →
       rooms_get key demo_waiting = Some room →
       joins sid roomId key room = true →
       rooms_get key (on_join_room "b" (Some "aaaaaa") demo_waiting).1
       = Some room' →
       gameStatus room' = playing ∧ length (players room') = 2%nat).
Proof.
  apply (player_count_by_status demo_waiting (JoinRoom "b" (Some "aaaaaa")) _
           (on_join_room "b" (Some "aaaaaa") demo_waiting).2).
  - apply demo_waiting_reachable.
  - reflexivity.
Defined.

(** ** Removal of rooms *)

Lemma departed_None sid room :
  departed sid room = None ↔ without sid (players room) = [].
Proof.
  unfold departed.
  destruct (length (without sid (players room)) =? 0)%nat eqn:Hlen.
  - by apply length_zero_nil in Hlen.
  - split; [done|]. intros Hnil. by rewrite Hnil in Hlen.
Qed.

Lemma departed_Some sid room room' :
  departed sid room = Some room' →
  room' = set_players room (without sid (players room)) ∧ players room' ≠ [].
Proof.
  unfold departed.
  destruct (length (without sid (players room)) =? 0)%nat eqn:Hlen; [done|].
  intros [= <-]. split; [done|]. simpl. intros Hnil. by rewrite Hnil in Hlen.
Qed.

Lemma disconnected_departed sid room :
  players room ≠ [] → disconnected sid room = departed sid room.
Proof.
  intros Hpos. unfold disconnected, departed.
  destruct (includes sid (players room)) eqn:Hinc; [done|].
  apply bool_decide_eq_false in Hinc.
  rewrite (without_not_elem _ _ Hinc), set_players_same.
  destruct (players room); [done|]. done.
Qed.

(** C6.  A registered room has a player; an event removes it from the
    registry exactly when the event is a leave naming it or a disconnect,
    and the departure leaves it no player; a room that is kept has a player,
    and after a leave or disconnect its players are the old ones without the
    departed socket. *)
Theorem room_removed_iff_last_player_gone rooms ev rooms' effs key room :
  reachable rooms →
  handle rooms ev = Some (rooms', effs) →
  rooms_get key rooms = Some room →
  players room ≠ []
  ∧ (rooms_get key rooms' = None
     ↔ ∃ sid, leaver rooms ev key = Some sid
              ∧ without sid (players room) = [])
  ∧ (∀ room',
       rooms_get key rooms' = Some room' →
       players room' ≠ []
       ∧ ∀ sid, leaver rooms ev key = Some sid →
                players room' = without sid (players room)).
Proof.
  intros Hok%reachable_ok Hstep Hget.
  assert (players room ≠ []) as Hpos
    by by destruct (rooms_ok_get _ _ _ Hok Hget).
  rewrite (handle_room _ _ Hok _ _ _ _ Hstep Hget). split; [done|].
  assert (∀ r : Room, players r = players room ∨ (∃ s, r = joined room s) →
            (Some r = None ↔ ∃ sid : string, None = Some sid
                                ∧ without sid (players room) = [])
            ∧ (∀ room', Some r = Some room' → players room' ≠ []
                 ∧ ∀ sid : string, None = Some sid →
                     players room' = without sid (players room))) as Hkeep.
  { intros r Hr. split; [split; [done | by intros (? & ? & _)]|].
    intros room' [= <-]. split; [|done].
    destruct Hr as [->|[s ->]]; [done|]. simpl. by destruct (players room). }
  assert (∀ sid,
            (departed sid room = None ↔ ∃ sid' : string, Some sid = Some sid'
                                ∧ without sid' (players room) = [])
            ∧ (∀ room', departed sid room = Some room' → players room' ≠ []
                 ∧ ∀ sid' : string, Some sid = Some sid' →
                     players room' = without sid' (players room))) as Hgo.
  { intros sid. rewrite departed_None. split.
    - split; [by eauto | by intros (? & [= <-] & ?)].
    - intros room' [-> ?]%departed_Some. split; [done|]. by intros ? [= <-]. }
  destruct ev as [sid now rnd fuel|sid roomId|sid roomId index symbol
                 |sid roomId|sid roomId|sid]; simpl.
  - apply Hkeep. by left.
  - apply Hkeep. destruct (joins sid roomId key room); [right; eauto | by left].
  - apply Hkeep. left. by destruct (_ && _).
  - apply Hkeep. left. by destruct (hits rooms roomId key).
  - destruct (hits rooms roomId key); [apply Hgo | apply Hkeep; by left].
  - rewrite disconnected_departed by done. apply Hgo.
Qed.

Lemma room_removed_iff_last_player_gone_witness :
  players room_left ≠ []
  ∧ (rooms_get "AAAAAA" (on_disconnect "a" demo_left).1 = None
     ↔ ∃ sid, leaver demo_left (Disconnect "a") "AAAAAA" = Some sid
              ∧ without sid ["a"] = [])
  ∧ (∀ room',
       rooms_get "AAAAAA" (on_disconnect "a" demo_left).1 = Some room' →
       players room' ≠ []
       ∧ ∀ sid, leaver demo_left (Disconnect "a") "AAAAAA" = Some sid →
                players room' = without sid ["a"]).
Proof.
  apply (room_removed_iff_last_player_gone demo_left (Disconnect "a") _
           (on_disconnect "a" demo_left).2 "AAAAAA" room_left).
  - apply demo_left_reachable.
  - reflexivity.
  - reflexivity.
Defined.

(** ** Reset *)

Lemma on_reset_found sid roomId rooms key room :
  findByFullRoomId roomId rooms = Some (key, room) →
  on_reset sid roomId rooms
  = (rooms_set key (restarted room) rooms,
     [IoToEmit roomId (game_move fresh_board (currentPlayer (restarted room))
                         JNull)]).
Proof. intros Hfind. unfold on_reset. by rewrite Hfind. Qed.

(** C5.  For a room found by its internal id, a reset leaves it with nine
    empty cells, [playing], the opener flipped and the current player set to
    the new opener, and broadcasts that; the room is still the one found by
    the id, and a second reset, from any sender, gives the opener its value
    from before the first. *)
Theorem reset_restarts_and_flips sid sid' roomId rooms key room :
  reachable rooms →
  findByFullRoomId roomId rooms = Some (key, room) →
  ∃ room1 room2,
    findByFullRoomId roomId (on_reset sid roomId rooms).1 = Some (key, room1)
    ∧ rooms_get key (on_reset sid roomId rooms).1 = Some room1
    ∧ dom (board room1) = cells
    ∧ (∀ i, 0 ≤ i < 9 → get (board room1) i = JNull)
    ∧ gameStatus room1 = playing
    ∧ flipped (lastStartingPlayer room) (lastStartingPlayer room1)
    ∧ currentPlayer room1 = lastStartingPlayer room1
    ∧ (on_reset sid roomId rooms).2
      = [IoToEmit roomId (game_move (board room1) (currentPlayer room1) JNull)]
    ∧ findByFullRoomId roomId
        (on_reset sid' roomId (on_reset sid roomId rooms).1).1
      = Some (key, room2)
    ∧ lastStartingPlayer room2 = lastStartingPlayer room.
Proof.
  intros Hok%reachable_ok Hfind.
  assert (rooms_ok (rooms_set key (restarted room) rooms)) as Hok1.
  { pose proof (on_reset_ok sid roomId _ Hok) as Hr.
    by rewrite (on_reset_found _ _ _ _ _ Hfind) in Hr. }
  assert (findByFullRoomId roomId (rooms_set key (restarted room) rooms)
          = Some (key, restarted room)) as Hfind1.
  { apply (find_set _ _ _ room); [by destruct Hok | done | done]. }
  exists (restarted room), (restarted (restarted room)).
  rewrite (on_reset_found _ _ _ _ _ Hfind). cbn [fst snd].
  rewrite (on_reset_found _ _ _ _ _ Hfind1). cbn [fst snd].
  destruct (rooms_ok_find _ _ _ _ Hok Hfind) as [_ _ _ _ _ Hlast].
  split_and!; try done.
  - by rewrite rooms_get_set, String.eqb_refl.
  - intros i Hi. by apply get_fresh_board.
  - unfold flipped. simpl. destruct Hlast as [->| ->]; [by left | by right].
  - apply (find_set _ _ _ (restarted room)); [by destruct Hok1 | done | done].
  - simpl. by destruct Hlast as [->| ->].
Qed.

Lemma reset_restarts_and_flips_witness :
  ∃ room1 room2,
    findByFullRoomId "room-17-aaaaaa"
      (on_reset "a" "room-17-aaaaaa" demo_moved).1 = Some ("AAAAAA", room1)
    ∧ rooms_get "AAAAAA" (on_reset "a" "room-17-aaaaaa" demo_moved).1
      = Some room1
    ∧ dom (board room1) = cells
    ∧ (∀ i, 0 ≤ i < 9 → get (board room1) i = JNull)
    ∧ gameStatus room1 = playing
    ∧ flipped "X" (lastStartingPlayer room1)
    ∧ currentPlayer room1 = lastStartingPlayer room1
    ∧ (on_reset "a" "room-17-aaaaaa" demo_moved).2
      = [IoToEmit "room-17-aaaaaa"
           (game_move (board room1) (currentPlayer room1) JNull)]
    ∧ findByFullRoomId "room-17-aaaaaa"
        (on_reset "b" "room-17-aaaaaa"
           (on_reset "a" "room-17-aaaaaa" demo_moved).1).1
      = Some ("AAAAAA", room2)
    ∧ lastStartingPlayer room2 = "X".
Proof.
  apply (reset_restarts_and_flips "a" "b" "room-17-aaaaaa" demo_moved "AAAAAA"
           room_moved).
  - apply demo_moved_reachable.
  - reflexivity.
Defined.

(** ** Boards across events *)

(** C8, as stated, fails: a reset turns the filled cell 0 of a reachable room
    into an empty one. *)
Lemma reset_empties_filled_cell :
  reachable demo_moved
  ∧ ((λ r, get (board r) 0) <$> rooms_get "AAAAAA" demo_moved)
    = Some (JStr "X")
  ∧ ((λ r, get (board r) 0)
       <$> rooms_get "AAAAAA" (on_reset "a" "room-17-aaaaaa" demo_moved).1)
    = Some JNull.
Proof. split_and!; [apply demo_moved_reachable | done | done]. Qed.

(** C8, amended.  The board of a registered room has exactly the keys 0..8,
    before and after every event; a reset naming the room replaces its board
    with nine empty cells, and no other event changes a cell that is not
    empty (a move writes only a cell that reads empty). *)
Theorem filled_cells_kept_until_reset rooms ev rooms' effs key room room' :
  reachable rooms →
  handle rooms ev = Some (rooms', effs) →
  rooms_get key rooms = Some room →
  rooms_get key rooms' = Some room' →
  dom (board room) = cells
  ∧ dom (board room') = cells
  ∧ match ev with
    | Reset _ roomId =>
        if hits rooms roomId key then board room' = fresh_board
        else board room' = board room
    | _ => ∀ i, get (board room) i ≠ JNull →
                get (board room') i = get (board room) i
    end.
Proof.
  intros Hok%reachable_ok Hstep Hget Hget'.
  assert (rooms_ok rooms') as Hok' by by eapply handle_ok.
  destruct (rooms_ok_get _ _ _ Hok Hget) as [_ _ _ [Hdom _] _ _].
  destruct (rooms_ok_get _ _ _ Hok' Hget') as [_ _ _ [Hdom' _] _ _].
  split_and!; [done..|].
  rewrite (handle_room _ _ Hok _ _ _ _ Hstep Hget) in Hget'.
  destruct ev as [sid now rnd fuel|sid roomId|sid roomId index symbol
                 |sid roomId|sid roomId|sid]; simpl in Hget'.
  - by injection Hget' as <-.
  - injection Hget' as <-. by destruct (joins sid roomId key room).
  - injection Hget' as <-. intros i Hi.
    destruct (_ && _) eqn:Hacc; [|done].
    apply andb_true_iff in Hacc as [_ (_ & _ & Hcell)%bool_decide_eq_true].
    simpl. rewrite get_insert. case_decide; [|done]. by subst i.
  - injection Hget' as <-. by destruct (hits rooms roomId key).
  - destruct (hits rooms roomId key).
    + by apply departed_Some in Hget' as [-> _].
    + by injection Hget' as <-.
  - unfold disconnected in Hget'.
    destruct (includes sid (players room)); [|by injection Hget' as <-].
    by apply departed_Some in Hget' as [-> _].
Qed.

Lemma filled_cells_kept_until_reset_witness :
  dom (board room_moved) = cells
  ∧ dom (board (moved room_moved 4 (JStr "O"))) = cells
  ∧ ∀ i, get (board room_moved) i ≠ JNull →
         get (board (moved room_moved 4 (JStr "O"))) i
         = get (board room_moved) i.
Proof.
  apply (filled_cells_kept_until_reset demo_moved
           (Move "b" "room-17-aaaaaa" 4 (JStr "O"))
           (on_move "b" "room-17-aaaaaa" 4 (JStr "O") demo_moved).1
           (on_move "b" "room-17-aaaaaa" 4 (JStr "O") demo_moved).2 "AAAAAA"
           room_moved (moved room_moved 4 (JStr "O"))).
  - apply demo_moved_reachable.
  - reflexivity.
  - reflexivity.
  - reflexivity.
Defined.

(** ** Requests whose precondition fails *)

(** C4, as stated, fails: a leave naming an unknown internal id is answered
    with nothing at all, no error reply included. *)
Lemma leave_unknown_room_no_error :
  precondition demo_playing (Leave "a" "room-0-zzzzzz") = false
  ∧ handle demo_playing (Leave "a" "room-0-zzzzzz")
    = Some (demo_playing, [SocketLeave "a" "room-0-zzzzzz"])
  ∧ direct_replies [SocketLeave "a" "room-0-zzzzzz"] = [].
Proof. by split_and!. Qed.

Lemma trim_empty s :
  trim s = "" → (String.eqb s "" || (String.length (trim s) =? 0)%nat) = true.
Proof. intros ->. apply orb_true_r. Qed.

Lemma trim_nonempty s :
  trim s ≠ "" → (String.eqb s "" || (String.length (trim s) =? 0)%nat) = false.
Proof.
  intros Hne. apply orb_false_iff. split.
  - apply String.eqb_neq. by intros ->.
  - by destruct (trim s).
Qed.

(** On the events that the handlers decode: a precondition that fails is
    answered with one error to the sender, or with nothing by leave. *)
Lemma failed_precondition_effects rooms ev :
  precondition rooms ev = false →
  match ev with
  | Leave sid roomId => handle rooms ev = Some (rooms, [SocketLeave sid roomId])
  | _ => ∃ msg, handle rooms ev
                = Some (rooms, [SocketEmit (sender ev) (game_error msg)])
  end.
Proof.
  destruct ev as [sid now rnd fuel|sid roomId|sid roomId index symbol
                 |sid roomId|sid roomId|sid]; simpl; try done.
  - unfold on_join_room. destruct roomId as [s|]; [|by eauto].
    destruct (String.eqb_spec (trim s) "") as [He|Hne].
    + rewrite (trim_empty _ He). by eauto.
    + rewrite (trim_nonempty _ Hne). cbn [negb andb].
      destruct (rooms_get (toUpperCase (trim s)) rooms) as [room|]; [|by eauto].
      destruct (2 <=? length (players room))%nat eqn:Hfull; [by eauto|].
      apply Nat.leb_gt in Hfull. rewrite (proj2 (Nat.ltb_lt _ _) Hfull).
      cbn [andb]. destruct (includes sid (players room)); [by eauto | done].
  - destruct (findByFullRoomId roomId rooms) as [[key room]|] eqn:Hfind.
    + intros Hn%bool_decide_eq_false.
      rewrite (on_move_illegal _ _ _ _ _ _ _ Hfind Hn). by eauto.
    + unfold on_move. rewrite Hfind. by eauto.
  - unfold on_reset.
    destruct (findByFullRoomId roomId rooms) as [[key room]|]; [done | by eauto].
  - unfold on_leave.
    by destruct (findByFullRoomId roomId rooms) as [[key room]|].
Qed.

(** The handlers throw exactly on the requests that are not well formed;
    nothing is replied and nothing changes then. *)
Lemma serve_threw rooms req : serve rooms req = Threw ↔ well_formed req = false.
Proof.
  unfold serve.
  destruct req as [sid now rnd fuel|sid [[| |s|n|b|]|]|sid [[[roomId index] symbol]|]
                  |sid [roomId|]|sid [roomId|]|sid]; simpl;
    try (by split); try (split; [done | discriminate]);
    try (split; [discriminate | done]).
  - by destruct (on_create_room sid now rnd fuel rooms).
  - destruct (n =? 0)%Z; simpl; by split.
  - destruct b; simpl; by split.
Qed.

(** A request that completes is served as the event it decodes to. *)
Lemma serve_completed rooms req res :
  serve rooms req = Completed res →
  ∃ ev, event_of req = Some ev ∧ handle rooms ev = Some res.
Proof.
  unfold serve. destruct (event_of req) as [ev|]; [|done].
  destruct (handle rooms ev) as [res'|] eqn:Hstep; [|done].
  intros [= <-]. eauto.
Qed.

(** C4, amended.  Of the requests that carry what the handler reads (a
    payload object and, for join-room, a room id that is a string or a
    falsy value): a join-room, move or reset whose precondition fails
    changes nothing in the registry and has one effect, an error reply to
    the sender, so nothing goes to the room's group; so does a reset naming
    an unknown internal id.  A leave naming an unknown internal id changes
    nothing in the registry either, and only takes the sender out of the
    transport group of that name: it sends no reply. *)
Theorem failed_precondition_reply rooms req :
  well_formed req = true →
  request_precondition rooms req = false →
  match req with
  | ReqLeave sid (Some roomId) =>
      serve rooms req = Completed (rooms, [SocketLeave sid roomId])
  | _ => ∃ msg, serve rooms req
                = Completed (rooms, [SocketEmit (request_sender req)
                                       (game_error msg)])
  end.
Proof.
  assert (∀ ev, precondition rooms ev = false →
            (∀ sid roomId, ev ≠ Leave sid roomId) →
            ∃ msg, match handle rooms ev with
                   | Some res => Completed res
                   | None => OutOfFuel
                   end = Completed (rooms, [SocketEmit (sender ev)
                                              (game_error msg)])) as Herr.
  { intros ev Hpre Hnl. pose proof (failed_precondition_effects rooms ev Hpre) as H.
    destruct ev; try (destruct H as [msg ->]; by exists msg).
    by destruct (Hnl sid roomId). }
  unfold serve.
  destruct req as [sid now rnd fuel|sid [[| |s|n|b|]|]|sid [[[roomId index] symbol]|]
                  |sid [roomId|]|sid [roomId|]|sid]; try done;
    cbn [well_formed request_precondition event_of field_truthy negb
         request_sender].
  - intros _ _. by apply (Herr (JoinRoom sid None)).
  - intros _ _. by apply (Herr (JoinRoom sid None)).
  - intros _ Hpre. by apply (Herr (JoinRoom sid (Some s))).
  - destruct (n =? 0)%Z; [|done]. intros _ _.
    by apply (Herr (JoinRoom sid None)).
  - destruct b; [done|]. intros _ _. by apply (Herr (JoinRoom sid None)).
  - intros _ Hpre. by apply (Herr (Move sid roomId index symbol)).
  - intros _ Hpre. by apply (Herr (Reset sid roomId)).
  - intros _ Hpre.
    by rewrite (failed_precondition_effects rooms (Leave sid roomId) Hpre).
Qed.

Lemma failed_precondition_reply_witness :
  ∃ msg, serve demo_playing (ReqJoinRoom "c" (Some (FStr "aaaaaa")))
         = Completed (demo_playing, [SocketEmit "c" (game_error msg)]).
Proof.
  apply (failed_precondition_reply demo_playing
           (ReqJoinRoom "c" (Some (FStr "aaaaaa")))); reflexivity.
Defined.

(** ** The winner *)

(** C3, as stated, fails: on a 9-cell board where [O] fills the middle row
    and [X] the top row, [O] fills one of the eight triples and the result
    is not [O]. *)
Lemma checkWinner_first_line_only :
  board_ok two_rows
  ∧ (3, 4, 5) ∈ lines
  ∧ fills two_rows "O" (3, 4, 5)
  ∧ checkWinner two_rows = JStr "X"
  ∧ checkWinner two_rows ≠ JStr "O".
Proof.
  split_and!; [by_eval | | done | done | done].
  unfold lines. rewrite !elem_of_cons. tauto.
Qed.

Section winner.
Context (b : gmap Z jsval).
Hypothesis Hb : board_ok b.

Lemma truthy_mark i :
  truthy (get b i) = true → ∃ m, is_mark m ∧ get b i = JStr m.
Proof.
  unfold get. destruct (b !! i) as [v|] eqn:Hv; simpl; [|done].
  destruct Hb as [_ Hall]. destruct (Hall _ _ Hv) as [->|[->| ->]]; [done|..];
    intros _; [exists "X" | exists "O"]; split; try done; [by left | by right].
Qed.

Lemma line_hit_filled l : line_hit b l = true ↔ filled b l.
Proof.
  destruct l as [[x y] z]. unfold line_hit, filled, fills, strict_eq. simpl.
  rewrite !andb_true_iff, !bool_decide_eq_true. split.
  - intros [[(m & Hm & Hx)%truthy_mark Hy] Hz]. exists m.
    rewrite <- Hz, <- Hy. by split_and!.
  - intros (m & Hm & -> & -> & ->). split_and!; try done.
    by destruct Hm as [->| ->].
Qed.

Lemma line_miss_not_filled l : line_hit b l = false ↔ ¬ filled b l.
Proof.
  rewrite <- line_hit_filled. by destruct (line_hit b l).
Qed.

(** The loop returns at the first line that holds three equal marks. *)
Lemma scan_lines_Some ls w :
  scan_lines b ls = Some w ↔
  ∃ before l after,
    ls = before ++ l :: after
    ∧ filled b l ∧ (∀ l', l' ∈ before → ¬ filled b l') ∧ w = get b l.1.1.
Proof.
  induction ls as [|l0 ls IH]; simpl.
  - split; [done|]. intros (before & l & after & Heq & _). by destruct before.
  - destruct (line_hit b l0) eqn:Hhit.
    + apply line_hit_filled in Hhit. split.
      * intros [= <-]. exists [], l0, ls. split_and!; try done.
        by intros l' ?%elem_of_nil.
      * intros ([|l1 before] & l & after & Heq & Hl & Hbefore & ->);
          simplify_eq/=; [done|].
        destruct (Hbefore l1); [left | done].
    + apply line_miss_not_filled in Hhit. rewrite IH. split.
      * intros (before & l & after & -> & Hl & Hbefore & ->).
        exists (l0 :: before), l, after. split_and!; try done.
        intros l' [->|?]%elem_of_cons; [done | by apply Hbefore].
      * intros ([|l1 before] & l & after & Heq & Hl & Hbefore & ->);
          simplify_eq/=; [done|].
        exists before, l, after. split_and!; try done.
        intros l' ?. apply Hbefore. by right.
Qed.

Lemma scan_lines_None ls :
  scan_lines b ls = None ↔ ∀ l, l ∈ ls → ¬ filled b l.
Proof.
  induction ls as [|l0 ls IH]; simpl.
  - split; [by intros _ l ?%elem_of_nil | done].
  - destruct (line_hit b l0) eqn:Hhit.
    + apply line_hit_filled in Hhit. split; [done|].
      intros Hall. destruct (Hall l0); [left | done].
    + apply line_miss_not_filled in Hhit. rewrite IH. split.
      * intros Hall l [->|?]%elem_of_cons; [done | by apply Hall].
      * intros Hall l ?. apply Hall. by right.
Qed.

Lemma every_full : every (λ cell, negb (strict_eq cell JNull)) b = true ↔ full b.
Proof.
  unfold every, full. rewrite forallb_forall. destruct Hb as [Hdom Hall].
  split.
  - intros Hev i Hi%elem_of_cells. rewrite <- Hdom in Hi.
    apply elem_of_dom in Hi as [v Hv]. unfold get. rewrite Hv. simpl.
    assert (In (i, v) (map_to_list b)) as Hin
      by by apply list_elem_of_In, elem_of_map_to_list.
    apply Hev in Hin. simpl in Hin. apply elem_of_dom_2 in Hv.
    rewrite Hdom in Hv. apply elem_of_cells in Hv.
    rewrite (proj2 (Z.ltb_ge _ _)) in Hin by lia. simpl in Hin.
    by apply negb_true_iff, bool_decide_eq_false in Hin.
  - intros Hfull [i v] Hin%list_elem_of_In%elem_of_map_to_list. simpl.
    apply orb_true_iff. right. apply negb_true_iff, bool_decide_eq_false.
    assert (0 ≤ i < 9) as Hi.
    { apply elem_of_cells. rewrite <- Hdom. by eapply elem_of_dom_2. }
    specialize (Hfull i Hi). unfold get in Hfull. by rewrite Hin in Hfull.
Qed.
End winner.

(** C3, amended.  On a 9-cell board [checkWinner] returns one of [null],
    [X], [O], [draw]; it returns a mark exactly when that mark fills the
    first of the eight triples, in the fixed order rows, columns, diagonals,
    that holds three equal marks; it returns [draw] exactly when no triple
    holds three equal marks and no cell is empty, and [null] exactly when no
    triple does and some cell is empty. *)
Theorem checkWinner_outcome b :
  board_ok b →
  (checkWinner b = JNull ∨ checkWinner b = JStr "X"
   ∨ checkWinner b = JStr "O" ∨ checkWinner b = JStr "draw")
  ∧ (∀ m, is_mark m →
       (checkWinner b = JStr m ↔
        ∃ before l after,
          lines = before ++ l :: after
          ∧ fills b m l ∧ ∀ l', l' ∈ before → ¬ filled b l'))
  ∧ (checkWinner b = JStr "draw"
     ↔ (∀ l, l ∈ lines → ¬ filled b l) ∧ full b)
  ∧ (checkWinner b = JNull
     ↔ (∀ l, l ∈ lines → ¬ filled b l) ∧ ¬ full b).
Proof.
  intros Hb. unfold checkWinner.
  destruct (scan_lines b lines) as [w|] eqn:Hscan.
  - pose proof Hscan as Hfirst.
    apply (scan_lines_Some b Hb) in Hfirst
      as (before & l & after & Hlines & (m & Hm & Hfill) & Hbefore & ->).
    assert (l ∈ lines) as Hin.
    { rewrite Hlines. apply elem_of_app. right. left. }
    assert (filled b l) as Hl by by exists m.
    destruct Hfill as (Hx & Hy & Hz). rewrite Hx. split_and!.
    + destruct Hm as [->| ->]; auto.
    + intros m' Hm'. split.
      * intros [= <-]. exists before, l, after. by split_and!.
      * intros (before' & l' & after' & Hlines' & Hfill' & Hbefore').
        assert (scan_lines b lines = Some (get b l'.1.1)) as Hscan'.
        { apply (scan_lines_Some b Hb). exists before', l', after'.
          split_and!; try done. by exists m'. }
        destruct Hfill' as (Hx' & _). congruence.
    + split; [intros [= ->]; by destruct Hm | by intros [Hno _]; destruct (Hno l)].
    + split; [done | by intros [Hno _]; destruct (Hno l)].
  - pose proof (proj1 (scan_lines_None b Hb lines) Hscan) as Hno.
    clear Hscan. rename Hno into Hscan.
    destruct (every _ b) eqn:Hev.
    + apply (every_full b Hb) in Hev. split_and!; [auto | | done | ].
      * intros m Hm. split; [by intros [= <-]; destruct Hm|].
        intros (before & l & after & Hlines & Hfill & _).
        destruct (Hscan l); [|by exists m].
        rewrite Hlines. apply elem_of_app. right. left.
      * split; [done | by intros [_ ?]].
    + assert (¬ full b) as Hnf.
      { intros Hf%(every_full b Hb). congruence. }
      split_and!; [auto | | | done].
      * intros m Hm. split; [done|].
        intros (before & l & after & Hlines & Hfill & _).
        destruct (Hscan l); [|by exists m].
        rewrite Hlines. apply elem_of_app. right. left.
      * split; [done | by intros [_ ?]].
Qed.

Lemma checkWinner_outcome_witness :
  (checkWinner two_rows = JNull ∨ checkWinner two_rows = JStr "X"
   ∨ checkWinner two_rows = JStr "O" ∨ checkWinner two_rows = JStr "draw").
Proof. apply (checkWinner_outcome two_rows). by_eval. Defined.

(** ** Turns *)

(** C7, as stated, fails: with no reset in between, [X] moves, the second
    player leaves, another one joins, and [X] moves again; both moves are
    accepted. *)
Lemma same_symbol_moves_twice :
  reachable demo_playing
  ∧ moves_until resets demo_playing "AAAAAA"
      [ Move "a" "room-17-aaaaaa" 0 (JStr "X");
        Leave "b" "room-17-aaaaaa";
        JoinRoom "c" (Some "aaaaaa");
        Move "a" "room-17-aaaaaa" 1 (JStr "X") ]
    = Some [JStr "X"; JStr "X"]
  ∧ ¬ alternates "X" [JStr "X"; JStr "X"].
Proof.
  split_and!; [apply demo_playing_reachable | by vm_compute |].
  simpl. by intros (_ & [=] & _).
Qed.

Lemma opposite_mark s : is_mark s → is_mark (opposite s).
Proof. intros [->| ->]; [by right | by left]. Qed.

Lemma moved_current room index s :
  is_mark s →
  currentPlayer (moved room index (JStr s)) = opposite s.
Proof. by intros [->| ->]. Qed.

Lemma accepted_symbol_Some rooms ev key room symbol :
  rooms_ok rooms →
  rooms_get key rooms = Some room →
  accepted_symbol rooms ev key = Some symbol →
  symbol = JStr (currentPlayer room)
  ∧ ∃ index, room_after rooms ev key room = Some (moved room index symbol).
Proof.
  intros Hok Hget. destruct ev as [| |sid roomId index sym| | |]; try done.
  simpl. destruct (findByFullRoomId roomId rooms) as [[k r]|] eqn:Hfind; [|done].
  destruct (find_hits _ key Hok _ _ _ Hfind) as [-> Hgetk].
  destruct (String.eqb_spec k key) as [->|?]; [|done]. simpl.
  assert (r = room) as -> by congruence.
  destruct (bool_decide (legal_move room index sym)) eqn:Hl; [|done].
  intros [= <-]. apply bool_decide_eq_true in Hl as (_ & ? & _). eauto.
Qed.

Lemma accepted_symbol_None rooms ev key room room' :
  rooms_ok rooms →
  rooms_get key rooms = Some room →
  accepted_symbol rooms ev key = None →
  starts_game rooms ev key = false →
  room_after rooms ev key room = Some room' →
  currentPlayer room' = currentPlayer room.
Proof.
  intros Hok Hget Hacc Hstart.
  destruct ev as [sid now rnd fuel|sid roomId|sid roomId index symbol
                 |sid roomId|sid roomId|sid]; simpl in *.
  - by intros [= <-].
  - rewrite Hget in Hstart. rewrite Hstart. by intros [= <-].
  - destruct (findByFullRoomId roomId rooms) as [[k r]|] eqn:Hfind.
    + destruct (find_hits _ key Hok _ _ _ Hfind) as [-> Hgetk].
      destruct (String.eqb_spec k key) as [->|?]; [|by intros [= <-]].
      assert (r = room) as -> by congruence. simpl in *.
      destruct (bool_decide (legal_move room index symbol)); [done|].
      by intros [= <-].
    + rewrite (find_none_hits _ key _ Hfind). by intros [= <-].
  - rewrite Hstart. by intros [= <-].
  - destruct (hits rooms roomId key); [|by intros [= <-]].
    by intros [-> _]%departed_Some.
  - unfold disconnected.
    destruct (includes sid (players room)); [|by intros [= <-]].
    by intros [-> _]%departed_Some.
Qed.

Lemma accepted_symbol_absent rooms ev key :
  rooms_ok rooms →
  rooms_get key rooms = None →
  accepted_symbol rooms ev key = None.
Proof.
  intros Hok Hget. destruct ev as [| |sid roomId index sym| | |]; try done.
  simpl. destruct (findByFullRoomId roomId rooms) as [[k r]|] eqn:Hfind; [|done].
  destruct (find_hits _ key Hok _ _ _ Hfind) as [_ Hgetk].
  destruct (String.eqb_spec k key) as [->|?]; [congruence | done].
Qed.

Lemma starts_game_creates rooms ev key :
  starts_game rooms ev key = false → creates rooms ev key = false.
Proof. by destruct ev. Qed.

(** Within one game the accepted moves take turns, starting with the
    current player. *)
Lemma moves_until_start_alternate key evs :
  ∀ rooms s syms,
    rooms_ok rooms →
    is_mark s →
    (∀ room, rooms_get key rooms = Some room → currentPlayer room = s) →
    moves_until starts_game rooms key evs = Some syms →
    alternates s syms.
Proof.
  induction evs as [|ev evs IH]; intros rooms s syms Hok Hs Hcur; simpl.
  - by intros [= <-].
  - destruct (starts_game rooms ev key) eqn:Hstart; [done|].
    destruct (handle rooms ev) as [[rooms' effs]|] eqn:Hstep; [|done].
    destruct (moves_until starts_game rooms' key evs) as [rest|] eqn:Hrest;
      [|done].
    assert (rooms_ok rooms') as Hok' by by eapply handle_ok.
    intros [= <-].
    destruct (rooms_get key rooms) as [room|] eqn:Hget.
    + pose proof (handle_room _ key Hok _ _ _ _ Hstep Hget) as Hafter.
      specialize (Hcur room eq_refl).
      destruct (accepted_symbol rooms ev key) as [symbol|] eqn:Hacc.
      * apply (accepted_symbol_Some _ _ _ _ _ Hok Hget) in Hacc
          as (-> & index & Hroom).
        rewrite Hroom, Hcur in Hafter. rewrite Hcur. split; [done|].
        apply (IH rooms'); [done | by apply opposite_mark | | done].
        intros room' Hget'. rewrite Hafter in Hget'. injection Hget' as <-.
        by apply moved_current.
      * apply (IH rooms'); try done.
        intros room' Hget'. rewrite Hafter in Hget'.
        rewrite (accepted_symbol_None _ _ _ _ _ Hok Hget Hacc Hstart Hget').
        done.
    + rewrite (accepted_symbol_absent _ _ _ Hok Hget).
      apply (IH rooms'); try done.
      intros room' Hget'.
      rewrite (handle_absent _ key Hok _ _ _ Hstep Hget) in Hget'; [done|].
      by apply starts_game_creates.
Qed.

(** C7, amended.  Within one game, that is until the next reset or join of
    the room (or its removal), the accepted moves take turns: an accepted
    move is by a mark [s], it leaves [currentPlayer] at the opposite of [s],
    and the moves accepted after it are by the opposite of [s], then by [s],
    and so on. *)
Theorem turns_alternate_within_game sid roomId index symbol rooms key room evs
    syms :
  reachable rooms →
  findByFullRoomId roomId rooms = Some (key, room) →
  legal_move room index symbol →
  moves_until starts_game (on_move sid roomId index symbol rooms).1 key evs
  = Some syms →
  ∃ s, symbol = JStr s
       ∧ is_mark s
       ∧ (currentPlayer
            <$> rooms_get key (on_move sid roomId index symbol rooms).1)
         = Some (opposite s)
       ∧ alternates (opposite s) syms.
Proof.
  intros Hok%reachable_ok Hfind Hlegal Hrun.
  assert (rooms_ok (on_move sid roomId index symbol rooms).1) as Hok'
    by by apply on_move_ok.
  rewrite (on_move_legal _ _ _ _ _ _ _ Hfind Hlegal) in Hrun, Hok' |- *.
  cbn [fst] in *.
  destruct (rooms_ok_find _ _ _ _ Hok Hfind) as [_ _ _ _ Hmark _].
  destruct Hlegal as (_ & -> & _).
  exists (currentPlayer room). rewrite rooms_get_set, String.eqb_refl.
  split_and!; try done.
  - simpl. f_equal. by destruct Hmark as [->| ->].
  - apply (moves_until_start_alternate key evs _ _ _ Hok');
      [by apply opposite_mark | | done].
    intros room'. rewrite rooms_get_set, String.eqb_refl. intros [= <-].
    by apply moved_current.
Qed.

Lemma turns_alternate_within_game_witness :
  ∃ s, JStr "X" = JStr s
       ∧ is_mark s
       ∧ (currentPlayer
            <$> rooms_get "AAAAAA"
                  (on_move "a" "room-17-aaaaaa" 0 (JStr "X") demo_playing).1)
         = Some (opposite s)
       ∧ alternates (opposite s) [JStr "O"; JStr "X"].
Proof.
  apply (turns_alternate_within_game "a" "room-17-aaaaaa" 0 (JStr "X")
           demo_playing "AAAAAA" room_playing
           [ Move "b" "room-17-aaaaaa" 0 (JStr "O");
             Move "b" "room-17-aaaaaa" 4 (JStr "O");
             Leave "c" "room-17-aaaaaa";
             Move "b" "room-17-aaaaaa" 5 (JStr "O");
             Move "a" "room-17-aaaaaa" 1 (JStr "X") ]).
  - apply demo_playing_reachable.
  - reflexivity.
  - by_eval.
  - by vm_compute.
Defined.

(** * Further properties of the code *)

(** ** Room identifiers *)

Lemma string_length_app (a b : string) :
  String.length (a +:+ b) = (String.length a + String.length b)%nat.
Proof. induction a as [|c a IH]; simpl; [done | by rewrite IH]. Qed.

Lemma string_app_assoc (a b c : string) : (a +:+ b) +:+ c = a +:+ (b +:+ c).
Proof.
  induction a as [|x a IH]; [done|].
  change (String x ((a +:+ b) +:+ c) = String x (a +:+ (b +:+ c))).
  by rewrite IH.
Qed.

Lemma list_ascii_app (a b : string) :
  String.list_ascii_of_string (a +:+ b)
  = String.list_ascii_of_string a ++ String.list_ascii_of_string b.
Proof. induction a as [|x a IH]; simpl; [done | by rewrite IH]. Qed.

Lemma over_alphabet_app (a b : string) :
  over_alphabet (a +:+ b) = over_alphabet a && over_alphabet b.
Proof. unfold over_alphabet. by rewrite list_ascii_app, forallb_app. Qed.

(** [chars.charAt(i)] is one character of the alphabet when [i] is below 36,
    and the empty string otherwise. *)
Lemma charAt_chars i :
  over_alphabet (charAt chars i) = true
  ∧ ((i < 36)%nat → String.length (charAt chars i) = 1%nat).
Proof.
  do 36 (destruct i as [|i]; [by split|]). split; [done | lia].
Qed.

Lemma generateRoomId_from_shape rnd n :
  ∀ k roomId,
    over_alphabet roomId = true →
    over_alphabet (generateRoomId_from rnd k n roomId) = true
    ∧ ((∀ j, (rnd j < 36)%nat) →
       String.length (generateRoomId_from rnd k n roomId)
       = (String.length roomId + n)%nat).
Proof.
  induction n as [|n IH]; intros k roomId Hover; simpl.
  - split; [done | intros _; lia].
  - destruct (charAt_chars (rnd k)) as [Hc Hlen].
    destruct (IH (S k) (roomId +:+ charAt chars (rnd k))) as [IH1 IH2].
    { by rewrite over_alphabet_app, Hover, Hc. }
    split; [done|]. intros Hrnd.
    rewrite (IH2 Hrnd), string_length_app, (Hlen (Hrnd k)). lia.
Qed.

Lemma generateRoomId_over rnd k : over_alphabet (generateRoomId rnd k) = true.
Proof. by apply generateRoomId_from_shape. Qed.

(** X1.  When every random draw is an index into the alphabet (as
    [Math.floor(Math.random() * 36)] is), the generated identifier has
    exactly 6 characters, each of them one of [A-Z0-9]. *)
Theorem generateRoomId_six_alphanumeric rnd k :
  (∀ j, (rnd j < 36)%nat) →
  String.length (generateRoomId rnd k) = 6%nat
  ∧ over_alphabet (generateRoomId rnd k) = true.
Proof.
  intros Hrnd. destruct (generateRoomId_from_shape rnd 6 k "" eq_refl) as [? Hl].
  split; [by apply Hl | done].
Qed.

Lemma generateRoomId_six_alphanumeric_witness :
  String.length (generateRoomId (λ j, (j * 7 + 3) `mod` 36)%nat 0) = 6%nat
  ∧ over_alphabet (generateRoomId (λ j, (j * 7 + 3) `mod` 36)%nat 0) = true.
Proof.
  apply (generateRoomId_six_alphanumeric (λ j, (j * 7 + 3) `mod` 36)%nat 0).
  intros j. apply Nat.mod_upper_bound. lia.
Defined.

Lemma rooms_set_fresh k r (rooms : Rooms) :
  rooms_has k rooms = false → rooms_set k r rooms = rooms ++ [(k, r)].
Proof.
  induction rooms as [|[k1 r1] rest IH]; simpl; [done|].
  destruct (String.eqb k1 k); simpl; [done|]. intros Hrest. by rewrite IH.
Qed.

Lemma unique_id_unfold fuel rooms rnd k :
  unique_id fuel rooms rnd k
  = if rooms_has (generateRoomId rnd k) rooms then
      match fuel with
      | O => None
      | S fuel' => unique_id fuel' rooms rnd (k + 6)
      end
    else Some (generateRoomId rnd k).
Proof. by destruct fuel. Qed.

(** The retry loop returns the first candidate that is not registered. *)
Lemma unique_id_first_fresh rooms rnd fuel :
  ∀ k id,
    unique_id fuel rooms rnd k = Some id ↔
    ∃ n, (n ≤ fuel)%nat
         ∧ id = generateRoomId rnd (k + 6 * n)
         ∧ rooms_has id rooms = false
         ∧ ∀ m, (m < n)%nat →
                rooms_has (generateRoomId rnd (k + 6 * m)) rooms = true.
Proof.
  induction fuel as [|fuel IH]; intros k id; rewrite unique_id_unfold;
    destruct (rooms_has (generateRoomId rnd k) rooms) eqn:Hhas.
  - split; [done|]. intros (n & Hn & -> & Hfresh & _).
    assert (n = 0)%nat as -> by lia.
    rewrite Nat.mul_0_r, Nat.add_0_r in Hfresh. congruence.
  - split.
    + intros [= <-]. exists 0%nat. rewrite Nat.mul_0_r, Nat.add_0_r.
      split_and!; [lia | done | done | intros; lia].
    + intros (n & Hn & -> & Hfresh & Hbefore).
      destruct n as [|n]; [by rewrite Nat.mul_0_r, Nat.add_0_r|].
      specialize (Hbefore 0%nat). rewrite Nat.mul_0_r, Nat.add_0_r in Hbefore.
      rewrite Hbefore in Hhas; [done | lia].
  - rewrite IH. split.
    + intros (n & Hn & -> & Hfresh & Hbefore). exists (S n).
      replace (k + 6 * S n)%nat with (k + 6 + 6 * n)%nat by lia.
      split_and!; [lia | done | done |].
      intros [|m] Hm; [by rewrite Nat.mul_0_r, Nat.add_0_r|].
      replace (k + 6 * S m)%nat with (k + 6 + 6 * m)%nat by lia.
      apply Hbefore. lia.
    + intros ([|n] & Hn & -> & Hfresh & Hbefore).
      { rewrite Nat.mul_0_r, Nat.add_0_r in Hfresh. congruence. }
      exists n. replace (k + 6 * S n)%nat with (k + 6 + 6 * n)%nat in * by lia.
      split_and!; [lia | done | done |].
      intros m Hm. specialize (Hbefore (S m)).
      replace (k + 6 * S m)%nat with (k + 6 + 6 * m)%nat in Hbefore by lia.
      apply Hbefore. lia.
  - split.
    + intros [= <-]. exists 0%nat. rewrite Nat.mul_0_r, Nat.add_0_r.
      split_and!; [lia | done | done | intros; lia].
    + intros (n & Hn & -> & Hfresh & Hbefore).
      destruct n as [|n]; [by rewrite Nat.mul_0_r, Nat.add_0_r|].
      specialize (Hbefore 0%nat). rewrite Nat.mul_0_r, Nat.add_0_r in Hbefore.
      rewrite Hbefore in Hhas; [done | lia].
Qed.

(** The registry that a successful create-room returns. *)
Lemma create_room_first_fresh_keys sid now rnd fuel rooms rooms' effs :
  on_create_room sid now rnd fuel rooms = Some (rooms', effs) →
  ∃ n, (n ≤ fuel)%nat
       ∧ rooms_has (candidate rnd n) rooms = false
       ∧ (∀ m, (m < n)%nat → rooms_has (candidate rnd m) rooms = true)
       ∧ rooms'
         = rooms ++ [(candidate rnd n,
                      mkRoom [sid] fresh_board "X" waiting
                        ("room-" +:+ pretty now +:+ "-"
                         +:+ toLowerCase (candidate rnd n)) "X")]
       ∧ effs = [ SocketJoin sid
                    ("room-" +:+ pretty now +:+ "-"
                     +:+ toLowerCase (candidate rnd n));
                  SocketEmit sid
                    (game_joined
                       ("room-" +:+ pretty now +:+ "-"
                        +:+ toLowerCase (candidate rnd n))
                       (candidate rnd n) "X" true) ].
Proof.
  unfold on_create_room.
  destruct (unique_id fuel rooms rnd 0) as [id|] eqn:Hid; [|done].
  intros [= <- <-].
  apply (unique_id_first_fresh rooms rnd fuel 0) in Hid
    as (n & Hn & -> & Hfresh & Hbefore).
  exists n. split_and!; [done | done | done | | done].
  by apply rooms_set_fresh.
Qed.

(** X2.  create-room succeeds exactly when one of the candidates it may draw
    is not registered; it then uses the first such candidate, appends the
    new room (sender as only player, empty board, [X] to move, waiting,
    internal id made of the time stamp and the lower-cased key) after the
    existing entries, which it leaves as they are, joins the sender to the
    group of the internal id and replies with both ids and symbol [X]. *)
Theorem create_room_first_fresh sid now rnd fuel rooms rooms' effs :
  on_create_room sid now rnd fuel rooms = Some (rooms', effs) ↔
  ∃ n, (n ≤ fuel)%nat
       ∧ rooms_has (candidate rnd n) rooms = false
       ∧ (∀ m, (m < n)%nat → rooms_has (candidate rnd m) rooms = true)
       ∧ let key := candidate rnd n in
         let full := "room-" +:+ pretty now +:+ "-" +:+ toLowerCase key in
         rooms' = rooms ++ [(key, mkRoom [sid] fresh_board "X" waiting full "X")]
         ∧ effs = [ SocketJoin sid full;
                    SocketEmit sid (game_joined full key "X" true) ].
Proof.
  unfold on_create_room. split.
  - destruct (unique_id fuel rooms rnd 0) as [id|] eqn:Hid; [|done].
    intros [= <- <-].
    apply (unique_id_first_fresh rooms rnd fuel 0) in Hid
      as (n & Hn & -> & Hfresh & Hbefore).
    exists n. split_and!; [done | done | done | | done].
    by apply rooms_set_fresh.
  - intros (n & Hn & Hfresh & Hbefore & -> & ->).
    assert (unique_id fuel rooms rnd 0 = Some (candidate rnd n)) as ->.
    { apply (unique_id_first_fresh rooms rnd fuel 0). by exists n. }
    by rewrite rooms_set_fresh.
Qed.

(** ** Internal identifiers *)

Lemma has_dash_app (a b : string) :
  has_dash (a +:+ b) = has_dash a || has_dash b.
Proof. unfold has_dash. by rewrite list_ascii_app, existsb_app. Qed.

Lemma last_segment_app (p x : string) :
  has_dash x = false → last_segment (p +:+ String "-" x) = x.
Proof.
  intros Hx. induction p as [|c p IH].
  - change (last_segment (String "-" x) = x). simpl. by rewrite Hx.
  - change (last_segment (String c (p +:+ String "-" x)) = x). simpl.
    rewrite has_dash_app.
    replace (has_dash (String "-" x)) with true by done.
    by rewrite orb_true_r.
Qed.

Lemma is_id_char_elem c : is_id_char c = true → c ∈ alphabet.
Proof.
  unfold is_id_char. rewrite existsb_exists.
  intros (c' & Hin & ->%Ascii.eqb_eq). by apply list_elem_of_In.
Qed.

Lemma lower_ascii_no_dash c :
  is_id_char c = true → is_dash (lower_ascii c) = false.
Proof.
  intros Hc%is_id_char_elem.
  assert (Forall (λ c, is_dash (lower_ascii c) = false) alphabet) as Hall
    by by_eval.
  rewrite Forall_forall in Hall. by apply Hall.
Qed.

Lemma lower_ascii_inj c1 c2 :
  is_id_char c1 = true → is_id_char c2 = true →
  lower_ascii c1 = lower_ascii c2 → c1 = c2.
Proof.
  intros H1%is_id_char_elem H2%is_id_char_elem.
  assert (Forall (λ c1, Forall (λ c2, lower_ascii c1 = lower_ascii c2 → c1 = c2)
                          alphabet) alphabet) as Hall by by_eval.
  rewrite Forall_forall in Hall. specialize (Hall _ H1).
  rewrite Forall_forall in Hall. by apply Hall.
Qed.

Lemma toLowerCase_no_dash s :
  over_alphabet s = true → has_dash (toLowerCase s) = false.
Proof.
  unfold over_alphabet, has_dash, toLowerCase.
  induction s as [|c s IH]; simpl; [done|].
  intros [Hc Hs]%andb_true_iff. by rewrite lower_ascii_no_dash, IH.
Qed.

Lemma toLowerCase_inj a :
  ∀ b, over_alphabet a = true → over_alphabet b = true →
       toLowerCase a = toLowerCase b → a = b.
Proof.
  unfold over_alphabet, toLowerCase.
  induction a as [|c a IH]; intros [|d b]; simpl; try done.
  intros [Hc Ha]%andb_true_iff [Hd Hb]%andb_true_iff [= Hcd Hab].
  f_equal; [by apply lower_ascii_inj | by apply IH].
Qed.

(** Rooms with different keys have different internal identifiers. *)
Lemma id_ok_inj k1 r1 k2 r2 :
  id_ok k1 r1 → id_ok k2 r2 → fullRoomId r1 = fullRoomId r2 → k1 = k2.
Proof.
  intros [Ho1 [now1 H1]] [Ho2 [now2 H2]] Heq.
  apply toLowerCase_inj; [done..|].
  rewrite H1, H2 in Heq. apply (f_equal last_segment) in Heq.
  rewrite <- (string_app_assoc "room-" (pretty now1)),
    <- (string_app_assoc "room-" (pretty now2)) in Heq.
  change (last_segment (("room-" +:+ pretty now1)
                          +:+ String "-" (toLowerCase k1))
          = last_segment (("room-" +:+ pretty now2)
                            +:+ String "-" (toLowerCase k2))) in Heq.
  by rewrite !last_segment_app in Heq by by apply toLowerCase_no_dash.
Qed.

Lemma room_after_fullRoomId rooms ev key room room' :
  room_after rooms ev key room = Some room' →
  fullRoomId room' = fullRoomId room.
Proof.
  destruct ev as [sid now rnd fuel|sid roomId|sid roomId index symbol
                 |sid roomId|sid roomId|sid]; simpl.
  - by intros [= <-].
  - intros [= <-]. by destruct (joins sid roomId key room).
  - intros [= <-]. by destruct (_ && _).
  - intros [= <-]. by destruct (hits rooms roomId key).
  - destruct (hits rooms roomId key); [|by intros [= <-]].
    by intros [-> _]%departed_Some.
  - unfold disconnected.
    destruct (includes sid (players room)); [|by intros [= <-]].
    by intros [-> _]%departed_Some.
Qed.

(** Every room of a reachable registry carries the internal identifier made
    from its key when it was created. *)
Lemma reachable_ids rooms :
  reachable rooms → ∀ k r, rooms_get k rooms = Some r → id_ok k r.
Proof.
  induction 1 as [|rooms ev rooms' effs Hreach IH Hstep]; [done|].
  intros k r' Hget'. pose proof (reachable_ok _ Hreach) as Hok.
  destruct (rooms_get k rooms) as [r|] eqn:Hget.
  - rewrite (handle_room _ _ Hok _ _ _ _ Hstep Hget) in Hget'.
    destruct (IH _ _ Hget) as [Hover [now Hfull]]. split; [done|].
    exists now. by rewrite (room_after_fullRoomId _ _ _ _ _ Hget').
  - destruct (creates rooms ev k) eqn:Hcr.
    + destruct ev as [sid now rnd fuel| | | | |]; try done. simpl in *.
      apply bool_decide_eq_true in Hcr. unfold on_create_room in Hstep.
      rewrite Hcr in Hstep. injection Hstep as <- _.
      rewrite rooms_get_set, String.eqb_refl in Hget'. injection Hget' as <-.
      apply unique_id_first_fresh in Hcr as (n & _ & -> & _).
      split; [apply generateRoomId_over | by exists now].
    + by rewrite (handle_absent _ _ Hok _ _ _ Hstep Hget Hcr) in Hget'.
Qed.

Lemma find_own (rooms : Rooms) k r :
  NoDup rooms.*1 →
  (∀ k' r', (k', r') ∈ rooms → fullRoomId r' = fullRoomId r → k' = k) →
  (k, r) ∈ rooms →
  findByFullRoomId (fullRoomId r) rooms = Some (k, r).
Proof.
  induction rooms as [|[k1 r1] rest IH]; csimpl.
  - by intros _ _ ?%elem_of_nil.
  - intros [Hk Hnd]%NoDup_cons Huniq Hin.
    destruct (String.eqb_spec (fullRoomId r1) (fullRoomId r)) as [Heq|Hne].
    + assert (k1 = k) as -> by (apply (Huniq k1 r1); [left | done]).
      apply elem_of_cons in Hin as [[= ->]|Hin]; [done|].
      destruct Hk. apply list_elem_of_fmap. by exists (k, r).
    + apply elem_of_cons in Hin as [[= -> ->]|Hin]; [done|].
      apply IH; [done | | done]. intros k' r' Hin'. apply Huniq. by right.
Qed.

(** X4.  In a reachable registry the internal identifier of a registered
    room belongs to no room under another key, and the lookup by internal
    identifier that move, reset and leave perform finds exactly that room. *)
Theorem internal_id_finds_its_room rooms key room :
  reachable rooms →
  rooms_get key rooms = Some room →
  findByFullRoomId (fullRoomId room) rooms = Some (key, room)
  ∧ ∀ key' room',
      rooms_get key' rooms = Some room' →
      fullRoomId room' = fullRoomId room → key' = key.
Proof.
  intros Hreach Hget. pose proof (reachable_ok _ Hreach) as [Hnd _].
  pose proof (reachable_ids _ Hreach) as Hids.
  assert (∀ k' r', (k', r') ∈ rooms → fullRoomId r' = fullRoomId room → k' = key)
    as Huniq.
  { intros k' r' Hin Heq. apply (id_ok_inj k' r' key room); [|by apply Hids|done].
    apply Hids. by apply elem_rooms_get. }
  split.
  - apply find_own; [done | done | by apply rooms_get_elem].
  - intros key' room' Hget'. apply Huniq. by apply rooms_get_elem.
Qed.

Lemma internal_id_finds_its_room_witness :
  findByFullRoomId (fullRoomId room_moved) demo_moved
  = Some ("AAAAAA", room_moved).
Proof.
  apply (internal_id_finds_its_room demo_moved "AAAAAA" room_moved).
  - apply demo_moved_reachable.
  - reflexivity.
Defined.

(** ** Which events add and remove rooms *)

Lemma rooms_get_Some_has k r (rooms : Rooms) :
  rooms_get k rooms = Some r → rooms_has k rooms = true.
Proof. intros Hget. apply rooms_get_has. by exists r. Qed.

Lemma find_has roomId (rooms : Rooms) k r :
  findByFullRoomId roomId rooms = Some (k, r) → rooms_has k rooms = true.
Proof.
  intros [Hin _]%find_elem. apply rooms_has_elem, list_elem_of_fmap.
  by exists (k, r).
Qed.

Lemma rooms_set_keys_same k r (rooms : Rooms) :
  rooms_has k rooms = true → (rooms_set k r rooms).*1 = rooms.*1.
Proof. intros Hhas. by rewrite rooms_set_keys, Hhas. Qed.

(** X5.  Only create-room adds a key to the registry, and it adds one new
    key after the others; join-room, move and reset leave the keys as they
    are, in their order; leave and disconnect can only remove keys. *)
Theorem registry_keys_step rooms ev rooms' effs :
  handle rooms ev = Some (rooms', effs) →
  match ev with
  | CreateRoom _ _ _ _ =>
      ∃ key, key ∉ rooms.*1 ∧ rooms'.*1 = rooms.*1 ++ [key]
  | JoinRoom _ _ | Move _ _ _ _ | Reset _ _ => rooms'.*1 = rooms.*1
  | Leave _ _ | Disconnect _ => rooms'.*1 `sublist_of` rooms.*1
  end.
Proof.
  destruct ev as [sid now rnd fuel|sid roomId|sid roomId index symbol
                 |sid roomId|sid roomId|sid]; simpl.
  - intros (n & _ & Hfresh & _ & -> & _)%create_room_first_fresh_keys.
    exists (candidate rnd n). split; [by apply rooms_has_false|].
    by rewrite fmap_app.
  - intros Hstep. registry_of Hstep. unfold on_join_room.
    destruct roomId as [s|]; [|done]. destruct (_ || _); [done|].
    destruct (rooms_get (toUpperCase (trim s)) rooms) as [room|] eqn:Hget;
      [|done].
    destruct (2 <=? length (players room))%nat; [done|].
    destruct (includes sid (players room)); [done|].
    cbn [fst]. by rewrite rooms_set_keys_same by by eapply rooms_get_Some_has.
  - intros Hstep. registry_of Hstep. unfold on_move.
    destruct (findByFullRoomId roomId rooms) as [[key room]|] eqn:Hfind; [|done].
    destruct (negb _); [done|]. destruct (negb _); [done|].
    destruct (negb _); [done|].
    cbn [fst]. by rewrite rooms_set_keys_same by by eapply find_has.
  - intros Hstep. registry_of Hstep. unfold on_reset.
    destruct (findByFullRoomId roomId rooms) as [[key room]|] eqn:Hfind; [|done].
    cbn [fst]. by rewrite rooms_set_keys_same by by eapply find_has.
  - intros Hstep. registry_of Hstep. unfold on_leave.
    destruct (findByFullRoomId roomId rooms) as [[key room]|] eqn:Hfind; [|done].
    destruct (length (without sid (players room)) =? 0)%nat; cbn [fst].
    + apply rooms_delete_keys.
    + by rewrite rooms_set_keys_same by by eapply find_has.
  - intros Hstep. registry_of Hstep. apply on_disconnect_keys.
Qed.

Lemma registry_keys_step_witness :
  (on_leave "a" "room-17-aaaaaa" demo_left).1.*1 `sublist_of` demo_left.*1.
Proof.
  apply (registry_keys_step demo_left (Leave "a" "room-17-aaaaaa") _
           (on_leave "a" "room-17-aaaaaa" demo_left).2).
  reflexivity.
Defined.

(** ** Joining *)

(** X6.  A join-room whose precondition holds stores the room with the
    sender appended to its players and the status [playing], joins the
    sender to the room's group, replies with both ids and symbol [O], and
    tells the group that a player joined.  In a reachable registry it keeps
    the board and the opener as they are (the board is not cleared, and the
    initialisation of a missing opener never fires) and hands the turn to
    the opener. *)
Theorem join_room_success sid s rooms :
  reachable rooms →
  precondition rooms (JoinRoom sid (Some s)) = true →
  ∃ room,
    rooms_get (toUpperCase (trim s)) rooms = Some room
    ∧ on_join_room sid (Some s) rooms
      = (rooms_set (toUpperCase (trim s)) (joined room sid) rooms,
         [ SocketJoin sid (fullRoomId room);
           SocketEmit sid
             (game_joined (fullRoomId room) (toUpperCase (trim s)) "O" false);
           IoToEmit (fullRoomId room) (game_player_joined "X") ])
    ∧ joined room sid
      = mkRoom (players room ++ [sid]) (board room) (lastStartingPlayer room)
          playing (fullRoomId room) (lastStartingPlayer room).
Proof.
  intros Hok%reachable_ok. unfold precondition, on_join_room.
  destruct (String.eqb_spec (trim s) "") as [|Hne]; [done|].
  rewrite (trim_nonempty _ Hne). cbn [negb andb].
  destruct (rooms_get (toUpperCase (trim s)) rooms) as [room|] eqn:Hget; [|done].
  intros [Hlen Hinc]%andb_true_iff. apply Nat.ltb_lt in Hlen.
  rewrite (proj2 (Nat.leb_gt _ _) Hlen).
  apply negb_true_iff in Hinc. rewrite Hinc.
  exists room. split_and!; [done | done |].
  destruct (rooms_ok_get _ _ _ Hok Hget) as [_ _ _ _ _ Hlast].
  unfold joined. by destruct Hlast as [->| ->].
Qed.

Lemma join_room_success_witness :
  ∃ room,
    rooms_get (toUpperCase (trim " aaaaaa ")) demo_left = Some room
    ∧ on_join_room "c" (Some " aaaaaa ") demo_left
      = (rooms_set (toUpperCase (trim " aaaaaa ")) (joined room "c") demo_left,
         [ SocketJoin "c" (fullRoomId room);
           SocketEmit "c"
             (game_joined (fullRoomId room) (toUpperCase (trim " aaaaaa "))
                "O" false);
           IoToEmit (fullRoomId room) (game_player_joined "X") ])
    ∧ joined room "c"
      = mkRoom (players room ++ ["c"]) (board room) (lastStartingPlayer room)
          playing (fullRoomId room) (lastStartingPlayer room).
Proof.
  apply (join_room_success "c" " aaaaaa " demo_left).
  - apply demo_left_reachable.
  - reflexivity.
Defined.

(** ** Leaving and disconnecting *)

Lemma rooms_set_same k r (rooms : Rooms) :
  rooms_get k rooms = Some r → rooms_set k r rooms = rooms.
Proof.
  induction rooms as [|[k1 r1] rest IH]; simpl; [done|].
  destruct (String.eqb_spec k1 k) as [->|?].
  - by intros [= ->].
  - intros Hget. by rewrite IH.
Qed.

(** X7.  The leave handler does not check that the sender is a player: a
    leave naming a room of a reachable registry, sent by a socket that is
    not one of its players, leaves the registry as it is, and still
    confirms to the sender and tells the room's group that the opponent
    left. *)
Theorem leave_by_stranger sid roomId rooms key room :
  reachable rooms →
  findByFullRoomId roomId rooms = Some (key, room) →
  sid ∉ players room →
  on_leave sid roomId rooms
  = (rooms, [ SocketEmit sid game_left;
              SocketToEmit sid roomId game_opponent_left;
              SocketLeave sid roomId ]).
Proof.
  intros Hok%reachable_ok Hfind Hout. unfold on_leave. rewrite Hfind.
  rewrite (without_not_elem _ _ Hout), set_players_same.
  destruct (rooms_ok_find _ _ _ _ Hok Hfind) as [Hpos _ _ _ _ _].
  destruct (players room) as [|p ps] eqn:Hps; [done|]. cbn [length Nat.eqb].
  rewrite rooms_set_same; [done|].
  apply find_get in Hfind; [done | by destruct Hok].
Qed.

Lemma leave_by_stranger_witness :
  on_leave "z" "room-17-aaaaaa" demo_playing
  = (demo_playing, [ SocketEmit "z" game_left;
                     SocketToEmit "z" "room-17-aaaaaa" game_opponent_left;
                     SocketLeave "z" "room-17-aaaaaa" ]).
Proof.
  apply (leave_by_stranger "z" "room-17-aaaaaa" demo_playing "AAAAAA"
           room_playing).
  - apply demo_playing_reachable.
  - reflexivity.
  - by_eval.
Defined.

Lemma on_disconnect_effects sid (rooms : Rooms) :
  (on_disconnect sid rooms).2 = disconnect_notices sid rooms.
Proof.
  unfold disconnect_notices.
  induction rooms as [|[k r] rest IH]; [done|]. csimpl.
  destruct (on_disconnect sid rest) as [rest' effs]. simpl in IH. subst effs.
  destruct (includes sid (players r)); [|done].
  by destruct (without sid (players r)).
Qed.

Lemma without_out sid (ps : list string) : sid ∉ without sid ps.
Proof. rewrite without_elem. naive_solver. Qed.

(** X8.  After a disconnect the socket is a player of no registered room;
    the handler sends nothing to the disconnected socket: its effects are
    the opponent-left notifications, one to the group of each room that had
    the socket and keeps another player, in registry order. *)
Theorem disconnect_leaves_every_room sid rooms :
  (∀ key room, (key, room) ∈ (on_disconnect sid rooms).1 → sid ∉ players room)
  ∧ (on_disconnect sid rooms).2 = disconnect_notices sid rooms
  ∧ direct_replies (on_disconnect sid rooms).2 = [].
Proof.
  split_and!.
  - intros key room (r0 & _ & -> & _)%on_disconnect_elem. apply without_out.
  - apply on_disconnect_effects.
  - rewrite on_disconnect_effects. unfold disconnect_notices, direct_replies.
    induction rooms as [|[k r] rest IH]; [done|]. csimpl.
    by destruct (_ && _).
Qed.

Lemma on_disconnect_stranger sid (rooms : Rooms) :
  (∀ key room, (key, room) ∈ rooms → sid ∉ players room) →
  on_disconnect sid rooms = (rooms, []).
Proof.
  induction rooms as [|[k r] rest IH]; [done|]. intros Hout. simpl.
  rewrite IH by (intros key room ?; apply (Hout key); by right).
  assert (includes sid (players r) = false) as ->; [|done].
  apply bool_decide_eq_false, (Hout k). left.
Qed.

(** X9.  A disconnect of a socket that is a player of no room changes
    nothing and has no effect. *)
Theorem disconnect_of_stranger sid rooms :
  (∀ key room, (key, room) ∈ rooms → sid ∉ players room) →
  on_disconnect sid rooms = (rooms, []).
Proof. apply on_disconnect_stranger. Qed.

Lemma disconnect_of_stranger_witness :
  on_disconnect "z" demo_playing = (demo_playing, []).
Proof.
  apply (disconnect_of_stranger "z" demo_playing).
  intros key room [[= -> ->]|Hin%elem_of_nil]%elem_of_cons; [|done].
  by_eval.
Defined.

(** X10.  Disconnecting twice is disconnecting once: the second disconnect
    of the same socket changes nothing and notifies nobody. *)
Theorem disconnect_twice sid rooms :
  on_disconnect sid (on_disconnect sid rooms).1
  = ((on_disconnect sid rooms).1, []).
Proof.
  apply on_disconnect_stranger.
  intros key room (r0 & _ & -> & _)%on_disconnect_elem. apply without_out.
Qed.

Lemma handle_room_fst rooms key ev res room :
  rooms_ok rooms →
  handle rooms ev = Some res →
  rooms_get key rooms = Some room →
  rooms_get key res.1 = room_after rooms ev key room.
Proof. destruct res. intros. by eapply handle_room. Qed.

Lemma handle_absent_fst rooms key ev res :
  rooms_ok rooms →
  handle rooms ev = Some res →
  rooms_get key rooms = None →
  creates rooms ev key = false →
  rooms_get key res.1 = None.
Proof. destruct res. intros. by eapply handle_absent. Qed.

(** X11.  For the room that a leave finds, leave and disconnect of the same
    socket agree: either both remove the room, or both keep it with the
    same players, board, turn and status; if the socket is a player of no
    other room, the two registries hold the same room under every key. *)
Theorem leave_like_disconnect sid roomId rooms key room :
  reachable rooms →
  findByFullRoomId roomId rooms = Some (key, room) →
  rooms_get key (on_leave sid roomId rooms).1
  = rooms_get key (on_disconnect sid rooms).1
  ∧ ((∀ key' room', rooms_get key' rooms = Some room' → key' ≠ key →
                    sid ∉ players room') →
     ∀ key', rooms_get key' (on_leave sid roomId rooms).1
             = rooms_get key' (on_disconnect sid rooms).1).
Proof.
  intros Hok%reachable_ok Hfind.
  assert (rooms_get key rooms = Some room) as Hget
    by (apply (find_get roomId); [by destruct Hok | done]).
  assert (hits rooms roomId key = true) as Hhit.
  { unfold hits. by rewrite Hfind, String.eqb_refl. }
  assert (rooms_get key (on_leave sid roomId rooms).1
          = rooms_get key (on_disconnect sid rooms).1) as Hsame.
  { rewrite (handle_room_fst _ _ (Leave sid roomId) _ _ Hok eq_refl Hget).
    rewrite (handle_room_fst _ _ (Disconnect sid) _ _ Hok eq_refl Hget).
    simpl. rewrite Hhit. symmetry. apply disconnected_departed.
    by destruct (rooms_ok_get _ _ _ Hok Hget). }
  split; [done|]. intros Hother key'.
  destruct (decide (key' = key)) as [->|Hne]; [done|].
  destruct (rooms_get key' rooms) as [room'|] eqn:Hget'.
  - rewrite (handle_room_fst _ _ (Leave sid roomId) _ _ Hok eq_refl Hget').
    rewrite (handle_room_fst _ _ (Disconnect sid) _ _ Hok eq_refl Hget').
    simpl. unfold hits. rewrite Hfind, (proj2 (String.eqb_neq _ _)) by done.
    unfold disconnected, includes.
    by rewrite (bool_decide_eq_false_2 _ (Hother _ _ Hget' Hne)).
  - rewrite (handle_absent_fst _ _ (Leave sid roomId) _ Hok eq_refl Hget' eq_refl).
    by rewrite (handle_absent_fst _ _ (Disconnect sid) _ Hok eq_refl Hget' eq_refl).
Qed.

Lemma leave_like_disconnect_witness :
  rooms_get "AAAAAA" (on_leave "b" "room-17-aaaaaa" demo_moved).1
  = rooms_get "AAAAAA" (on_disconnect "b" demo_moved).1.
Proof.
  apply (proj1 (leave_like_disconnect "b" "room-17-aaaaaa" demo_moved "AAAAAA"
                  room_moved demo_moved_reachable eq_refl)).
Defined.

(** ** The health check *)

Lemma count_split (rooms : Rooms) :
  Forall (λ kr, 1 ≤ length (players kr.2) ≤ 2)%nat rooms →
  Z.of_nat (length rooms)
  = count_rooms (λ r, (length (players r) =? 1)%nat) rooms
    + count_rooms (λ r, (length (players r) =? 2)%nat) rooms.
Proof.
  unfold count_rooms. induction 1 as [|[k r] rest Hr _ IH]; [done|].
  cbn [List.filter snd length]. simpl in Hr.
  destruct (length (players r)) as [|[|[|n]]] eqn:Hlen; try lia;
    cbn [Nat.eqb length]; lia.
Qed.

Lemma count_le (p q : Room → bool) (rooms : Rooms) :
  Forall (λ kr, p kr.2 = true → q kr.2 = true) rooms →
  (count_rooms p rooms ≤ count_rooms q rooms)%Z.
Proof.
  unfold count_rooms. induction 1 as [|[k r] rest Hr _ IH]; [done|].
  cbn [List.filter snd]. simpl in Hr.
  destruct (p r); [rewrite Hr by done|destruct (q r)]; cbn [length]; lia.
Qed.

(** X12.  On a reachable registry the health check reports the number of
    registered rooms; its [activeGames] is the number of rooms with two
    players and is never negative, and its [waitingRooms] counts the rooms
    with one player, which include every room whose status is [waiting]
    (and the rooms still [playing] or [finished] that a player has left). *)
Theorem health_counts timestamp rooms :
  reachable rooms →
  Health.rooms (health timestamp rooms) = Z.of_nat (length rooms)
  ∧ Health.activeGames (health timestamp rooms)
    = count_rooms (λ r, (length (players r) =? 2)%nat) rooms
  ∧ (0 ≤ Health.activeGames (health timestamp rooms))%Z
  ∧ (count_rooms (λ r, bool_decide (gameStatus r = waiting)) rooms
     ≤ Health.waitingRooms (health timestamp rooms))%Z.
Proof.
  intros [_ Hall]%reachable_ok. unfold health. cbn [Health.rooms
    Health.activeGames Health.waitingRooms].
  fold (count_rooms (λ r, (length (players r) =? 1)%nat) rooms).
  assert (Forall (λ kr : string * Room, 1 ≤ length (players kr.2) ≤ 2)%nat rooms)
    as Hlen.
  { eapply Forall_impl; [exact Hall|]. intros [k r] []. simpl in *.
    destruct (players r); simpl in *; [done | lia]. }
  rewrite (count_split _ Hlen). split_and!; [done | lia | |].
  - unfold count_rooms. lia.
  - apply count_le. eapply Forall_impl; [exact Hall|].
    intros [k r] [] Hw%bool_decide_eq_true. simpl in *.
    by rewrite ok_waiting0.
Qed.

Lemma health_counts_witness :
  Health.rooms (health "2024-11-12T10:00:00.000Z" demo_left)
  = Z.of_nat (length demo_left)
  ∧ Health.activeGames (health "2024-11-12T10:00:00.000Z" demo_left)
    = count_rooms (λ r, (length (players r) =? 2)%nat) demo_left
  ∧ (0 ≤ Health.activeGames (health "2024-11-12T10:00:00.000Z" demo_left))%Z
  ∧ (count_rooms (λ r, bool_decide (gameStatus r = waiting)) demo_left
     ≤ Health.waitingRooms (health "2024-11-12T10:00:00.000Z" demo_left))%Z.
Proof.
  apply (health_counts "2024-11-12T10:00:00.000Z" demo_left).
  apply demo_left_reachable.
Defined.

(** ** Winners *)

Lemma fills_before_write b i m m' l :
  m' ≠ m → fills (<[i := JStr m]> b) m' l → fills b m' l.
Proof.
  intros Hne (Hx & Hy & Hz). rewrite !get_insert in Hx, Hy, Hz.
  repeat case_decide; by simplify_eq.
Qed.

(** X13.  On a 9-cell board where no triple holds three equal marks, a mark
    written into an empty cell can make only that mark win: the result of
    [checkWinner] on the new board is the written mark, [draw] or [null],
    never the other mark. *)
Theorem move_wins_for_mover_only b i m :
  board_ok b →
  (∀ l, l ∈ lines → ¬ filled b l) →
  get b i = JNull →
  is_mark m →
  checkWinner (<[i := JStr m]> b) = JStr m
  ∨ checkWinner (<[i := JStr m]> b) = JStr "draw"
  ∨ checkWinner (<[i := JStr m]> b) = JNull.
Proof.
  intros Hb Hnone Hcell Hm.
  assert (board_ok (<[i := JStr m]> b)) as Hb'.
  { apply board_ok_insert; [done..|]. destruct Hm as [->| ->]; [right; by left|].
    right; by right. }
  unfold checkWinner.
  destruct (scan_lines (<[i := JStr m]> b) lines) as [w|] eqn:Hscan.
  - apply (scan_lines_Some _ Hb') in Hscan
      as (before & l & after & Hlines & (m' & Hm' & Hfill) & _ & ->).
    destruct (decide (m' = m)) as [->|Hne].
    + left. by destruct Hfill as [-> _].
    + destruct (Hnone l).
      * rewrite Hlines. apply elem_of_app. right. left.
      * exists m'. split; [done|]. by eapply fills_before_write.
  - destruct (every _ _); auto.
Qed.

Lemma move_wins_for_mover_only_witness :
  checkWinner (<[4 := JStr "O"]> (<[0 := JStr "X"]> fresh_board)) = JStr "O"
  ∨ checkWinner (<[4 := JStr "O"]> (<[0 := JStr "X"]> fresh_board))
    = JStr "draw"
  ∨ checkWinner (<[4 := JStr "O"]> (<[0 := JStr "X"]> fresh_board)) = JNull.
Proof.
  apply (move_wins_for_mover_only (<[0 := JStr "X"]> fresh_board) 4 "O").
  - by_eval.
  - intros l Hl (m & _ & Hfill). unfold lines in Hl.
    rewrite !elem_of_cons, elem_of_nil in Hl.
    destruct Hl as [->|[->|[->|[->|[->|[->|[->|[->|[]]]]]]]]];
      by destruct Hfill as (_ & Hy & Hz).
  - reflexivity.
  - by right.
Defined.

(** ** Finished games and restarts *)

(** X14.  A finished game stays as it is until it is restarted: as long as
    no event starts a game in the room (a reset naming it or a join that
    succeeds on it), the room keeps the status [finished], its board and its
    current player, no move in it is accepted, and a move naming it is
    answered with the not-in-progress error. *)
Theorem finished_until_restart rooms ev rooms' effs key room :
  reachable rooms →
  handle rooms ev = Some (rooms', effs) →
  rooms_get key rooms = Some room →
  gameStatus room = finished →
  starts_game rooms ev key = false →
  accepted_symbol rooms ev key = None
  ∧ (∀ room', rooms_get key rooms' = Some room' →
              gameStatus room' = finished
              ∧ board room' = board room
              ∧ currentPlayer room' = currentPlayer room)
  ∧ (∀ sid roomId index symbol,
       ev = Move sid roomId index symbol →
       hits rooms roomId key = true →
       effs = [SocketEmit sid (game_error "Game is not in progress")]).
Proof.
  intros Hok%reachable_ok Hstep Hget Hfin Hstart.
  assert (∀ index symbol, ¬ legal_move room index symbol) as Hillegal.
  { intros index symbol (Hst & _). congruence. }
  rewrite (handle_room _ _ Hok _ _ _ _ Hstep Hget).
  destruct ev as [sid now rnd fuel|sid roomId|sid roomId index symbol
                 |sid roomId|sid roomId|sid]; simpl in *.
  - split_and!; [done | by intros ? [= <-] | done].
  - rewrite Hget in Hstart. rewrite Hstart.
    split_and!; [done | by intros ? [= <-] | done].
  - rewrite (bool_decide_eq_false_2 _ (Hillegal index symbol)), andb_false_r.
    split_and!.
    + destruct (findByFullRoomId roomId rooms) as [[k r]|] eqn:Hfind; [|done].
      destruct (find_hits _ key Hok _ _ _ Hfind) as [_ Hgetk].
      destruct (String.eqb_spec k key) as [->|?]; [|done].
      assert (r = room) as -> by congruence.
      by rewrite (bool_decide_eq_false_2 _ (Hillegal index symbol)).
    + by intros ? [= <-].
    + intros sid' roomId' index' symbol' [= <- <- <- <-] Hhit.
      pose proof (hits_find _ _ Hok _ _ Hget Hhit) as Hfind.
      rewrite (on_move_illegal _ _ _ _ _ _ _ Hfind (Hillegal index symbol))
        in Hstep.
      injection Hstep as _ <-. unfold move_error.
      by rewrite bool_decide_eq_false_2 by congruence.
  - rewrite Hstart. split_and!; [done | by intros ? [= <-] | done].
  - split_and!; [done | | done].
    destruct (hits rooms roomId key); [|by intros ? [= <-]].
    by intros ? [-> _]%departed_Some.
  - split_and!; [done | | done]. unfold disconnected.
    destruct (includes sid (players room)); [|by intros ? [= <-]].
    by intros ? [-> _]%departed_Some.
Qed.

(** The room of [demo_playing] after [X] won with the top row. *)
Lemma demo_won_reachable :
  reachable
    [("AAAAAA",
      mkRoom ["a"; "b"]
        (<[2 := JStr "X"]> (<[5 := JStr "O"]> (<[1 := JStr "X"]>
           (<[4 := JStr "O"]> (<[0 := JStr "X"]> fresh_board)))))
        "O" finished "room-17-aaaaaa" "X")].
Proof.
  apply (run_reachable
           (demo_move ++ [ Move "b" "room-17-aaaaaa" 4 (JStr "O");
                           Move "a" "room-17-aaaaaa" 1 (JStr "X");
                           Move "b" "room-17-aaaaaa" 5 (JStr "O");
                           Move "a" "room-17-aaaaaa" 2 (JStr "X") ])).
  by vm_compute.
Defined.

Lemma finished_until_restart_witness :
  accepted_symbol
    [("AAAAAA",
      mkRoom ["a"; "b"]
        (<[2 := JStr "X"]> (<[5 := JStr "O"]> (<[1 := JStr "X"]>
           (<[4 := JStr "O"]> (<[0 := JStr "X"]> fresh_board)))))
        "O" finished "room-17-aaaaaa" "X")]
    (Move "b" "room-17-aaaaaa" 3 (JStr "O")) "AAAAAA" = None.
Proof.
  apply (finished_until_restart _ (Move "b" "room-17-aaaaaa" 3 (JStr "O")) _ _
           "AAAAAA" _ demo_won_reachable eq_refl eq_refl eq_refl eq_refl).
Defined.

(** X15.  Right after a reset of a room of a reachable registry, a move by
    the new opener, the opposite of the opener before the reset, is
    accepted at every cell 0..8, from any sender, and a move by the other
    symbol is answered with the not-your-turn error. *)
Theorem reset_then_opener_moves sid sid' roomId rooms key room index :
  reachable rooms →
  findByFullRoomId roomId rooms = Some (key, room) →
  0 ≤ index < 9 →
  accepted
    (on_move sid' roomId index (JStr (opposite (lastStartingPlayer room)))
       (on_reset sid roomId rooms).1).2 = true
  ∧ on_move sid' roomId index (JStr (lastStartingPlayer room))
      (on_reset sid roomId rooms).1
    = ((on_reset sid roomId rooms).1,
       [SocketEmit sid' (game_error "Not your turn")]).
Proof.
  intros Hok%reachable_ok Hfind Hindex.
  rewrite (on_reset_found _ _ _ _ _ Hfind). cbn [fst].
  assert (findByFullRoomId roomId (rooms_set key (restarted room) rooms)
          = Some (key, restarted room)) as Hfind1.
  { apply (find_set _ _ _ room); [by destruct Hok | done | done]. }
  destruct (rooms_ok_find _ _ _ _ Hok Hfind) as [_ _ _ _ _ Hlast].
  split.
  - rewrite (on_move_legal _ _ _ _ _ _ _ Hfind1); [done|].
    split_and!; [done | done |]. by apply get_fresh_board.
  - rewrite (on_move_illegal _ _ _ _ _ _ _ Hfind1).
    + unfold move_error, strict_eq. cbn [gameStatus restarted currentPlayer].
      rewrite bool_decide_eq_true_2 by done. cbn [negb].
      rewrite bool_decide_eq_false_2; [done|].
      by destruct Hlast as [->| ->].
    + intros (_ & Hturn & _). simpl in Hturn.
      by destruct Hlast as [Hl|Hl]; rewrite Hl in Hturn.
Qed.

Lemma reset_then_opener_moves_witness :
  accepted
    (on_move "b" "room-17-aaaaaa" 8 (JStr (opposite (lastStartingPlayer room_moved)))
       (on_reset "a" "room-17-aaaaaa" demo_moved).1).2 = true.
Proof.
  apply (reset_then_opener_moves "a" "b" "room-17-aaaaaa" demo_moved "AAAAAA"
           room_moved 8).
  - apply demo_moved_reachable.
  - reflexivity.
  - lia.
Defined.

(** ** Who the effects are for *)

(** X16.  Whatever the event, the direct replies and the group joins and
    leaves of a handler concern the sender only, and the notifications that
    leave the sender out are sent in the sender's name: no handler replies
    to, moves or speaks for another socket. *)
Theorem effects_from_sender rooms ev rooms' effs :
  handle rooms ev = Some (rooms', effs) →
  Forall (from_socket (sender ev)) effs.
Proof.
  destruct ev as [sid now rnd fuel|sid roomId|sid roomId index symbol
                 |sid roomId|sid roomId|sid]; simpl.
  - intros (n & _ & _ & _ & _ & ->)%create_room_first_fresh_keys.
    by repeat constructor.
  - intros [= Heq]. apply (f_equal snd) in Heq. simpl in Heq. subst effs.
    unfold on_join_room. destruct roomId as [s|]; [|by repeat constructor].
    destruct (_ || _); [by repeat constructor|].
    destruct (rooms_get _ rooms) as [room|]; [|by repeat constructor].
    destruct (2 <=? length (players room))%nat; [by repeat constructor|].
    destruct (includes sid (players room)); by repeat constructor.
  - intros [= Heq]. apply (f_equal snd) in Heq. simpl in Heq. subst effs.
    unfold on_move.
    destruct (findByFullRoomId roomId rooms) as [[key room]|];
      [|by repeat constructor].
    destruct (negb _); [by repeat constructor|].
    destruct (negb _); [by repeat constructor|].
    destruct (negb _); by repeat constructor.
  - intros [= Heq]. apply (f_equal snd) in Heq. simpl in Heq. subst effs.
    unfold on_reset.
    destruct (findByFullRoomId roomId rooms) as [[key room]|];
      by repeat constructor.
  - intros [= Heq]. apply (f_equal snd) in Heq. simpl in Heq. subst effs.
    unfold on_leave.
    destruct (findByFullRoomId roomId rooms) as [[key room]|];
      [|by repeat constructor].
    destruct (length (without sid (players room)) =? 0)%nat;
      by repeat constructor.
  - intros [= Heq]. apply (f_equal snd) in Heq. simpl in Heq. subst effs.
    rewrite on_disconnect_effects. unfold disconnect_notices.
    induction rooms as [|[k r] rest IH]; [constructor|]. csimpl.
    destruct (_ && _); [by constructor | done].
Qed.

Lemma effects_from_sender_witness :
  Forall (from_socket "b") (on_leave "b" "room-17-aaaaaa" demo_playing).2.
Proof.
  apply (effects_from_sender demo_playing (Leave "b" "room-17-aaaaaa")
           (on_leave "b" "room-17-aaaaaa" demo_playing).1).
  reflexivity.
Defined.

(** ** How many moves a game takes *)

Lemma empty_cells_write (b : gmap Z jsval) i v :
  get b i = JNull → v ≠ JNull →
  S (empty_cells (<[i := v]> b)) = empty_cells b.
Proof.
  intros Hcell%get_null_lookup Hv. unfold empty_cells.
  rewrite map_filter_insert_False by done.
  rewrite map_filter_delete.
  assert (filter (λ kv : Z * jsval, kv.2 = JNull) b !! i = Some JNull) as Hin
    by by apply map_lookup_filter_Some.
  rewrite map_size_delete, Hin.
  destruct (size (filter (λ kv : Z * jsval, kv.2 = JNull) b)) eqn:Hsize; [|done].
  apply map_size_empty_iff in Hsize. by rewrite Hsize in Hin.
Qed.

Lemma empty_cells_le_9 (b : gmap Z jsval) : board_ok b → (empty_cells b ≤ 9)%nat.
Proof.
  intros [Hdom _]. unfold empty_cells.
  etransitivity; [apply map_size_filter|].
  rewrite <- size_dom, Hdom. by vm_compute.
Qed.

Lemma accepted_symbol_legal rooms ev key room symbol :
  rooms_ok rooms →
  rooms_get key rooms = Some room →
  accepted_symbol rooms ev key = Some symbol →
  ∃ index, room_after rooms ev key room = Some (moved room index symbol)
           ∧ legal_move room index symbol.
Proof.
  intros Hok Hget. destruct ev as [| |sid roomId index sym| | |]; try done.
  simpl. destruct (findByFullRoomId roomId rooms) as [[k r]|] eqn:Hfind; [|done].
  destruct (find_hits _ key Hok _ _ _ Hfind) as [-> Hgetk].
  destruct (String.eqb_spec k key) as [->|?]; [|done]. simpl.
  assert (r = room) as -> by congruence.
  destruct (bool_decide (legal_move room index sym)) eqn:Hl; [|done].
  intros [= <-]. apply bool_decide_eq_true in Hl. eauto.
Qed.

Lemma quiet_event_board rooms ev key room room' :
  rooms_ok rooms →
  rooms_get key rooms = Some room →
  accepted_symbol rooms ev key = None →
  starts_game rooms ev key = false →
  room_after rooms ev key room = Some room' →
  board room' = board room.
Proof.
  intros Hok Hget Hacc Hstart.
  destruct ev as [sid now rnd fuel|sid roomId|sid roomId index symbol
                 |sid roomId|sid roomId|sid]; simpl in *.
  - by intros [= <-].
  - rewrite Hget in Hstart. rewrite Hstart. by intros [= <-].
  - destruct (findByFullRoomId roomId rooms) as [[k r]|] eqn:Hfind.
    + destruct (find_hits _ key Hok _ _ _ Hfind) as [-> Hgetk].
      destruct (String.eqb_spec k key) as [->|?]; [|by intros [= <-]].
      assert (r = room) as -> by congruence. simpl in *.
      destruct (bool_decide (legal_move room index symbol)); [done|].
      by intros [= <-].
    + rewrite (find_none_hits _ key _ Hfind). by intros [= <-].
  - rewrite Hstart. by intros [= <-].
  - destruct (hits rooms roomId key); [|by intros [= <-]].
    by intros [-> _]%departed_Some.
  - unfold disconnected.
    destruct (includes sid (players room)); [|by intros [= <-]].
    by intros [-> _]%departed_Some.
Qed.

Lemma moves_until_start_bounded key evs :
  ∀ rooms syms n,
    rooms_ok rooms →
    (∀ room, rooms_get key rooms = Some room →
             (empty_cells (board room) ≤ n)%nat) →
    moves_until starts_game rooms key evs = Some syms →
    (length syms ≤ n)%nat.
Proof.
  induction evs as [|ev evs IH]; intros rooms syms n Hok Hn; simpl.
  - intros [= <-]. simpl. lia.
  - destruct (starts_game rooms ev key) eqn:Hstart; [done|].
    destruct (handle rooms ev) as [[rooms' effs]|] eqn:Hstep; [|done].
    destruct (moves_until starts_game rooms' key evs) as [rest|] eqn:Hrest;
      [|done].
    assert (rooms_ok rooms') as Hok' by by eapply handle_ok.
    intros [= <-].
    destruct (rooms_get key rooms) as [room|] eqn:Hget.
    + pose proof (handle_room _ key Hok _ _ _ _ Hstep Hget) as Hafter.
      specialize (Hn room eq_refl).
      destruct (accepted_symbol rooms ev key) as [symbol|] eqn:Hacc.
      * apply (accepted_symbol_legal _ _ _ _ _ Hok Hget) in Hacc
          as (index & Hroom & _ & -> & Hcell).
        rewrite Hroom in Hafter.
        pose proof (empty_cells_write (board room) index
                      (JStr (currentPlayer room)) Hcell ltac:(done)) as Hless.
        destruct n as [|n]; [lia|]. simpl.
        apply le_n_S, (IH rooms'); [done | | done].
        intros room' Hget'. rewrite Hafter in Hget'. injection Hget' as <-.
        simpl. lia.
      * apply (IH rooms'); [done | | done].
        intros room' Hget'. rewrite Hafter in Hget'.
        by rewrite (quiet_event_board _ _ _ _ _ Hok Hget Hacc Hstart Hget').
    + rewrite (accepted_symbol_absent _ _ _ Hok Hget).
      apply (IH rooms'); [done | | done].
      intros room' Hget'.
      rewrite (handle_absent _ key Hok _ _ _ Hstep Hget) in Hget'; [done|].
      by apply starts_game_creates.
Qed.

(** X17.  Within one game (until the next reset or join of the room) the
    number of accepted moves is at most the number of empty cells the board
    had at the start of the run, hence at most 9: every accepted move fills
    one empty cell for good. *)
Theorem accepted_moves_bounded rooms key room evs syms :
  reachable rooms →
  rooms_get key rooms = Some room →
  moves_until starts_game rooms key evs = Some syms →
  (length syms ≤ empty_cells (board room) ≤ 9)%nat.
Proof.
  intros Hok%reachable_ok Hget Hrun. split.
  - apply (moves_until_start_bounded key evs rooms); [done | | done].
    intros room' Hget'. assert (room' = room) as -> by congruence. lia.
  - apply empty_cells_le_9. by destruct (rooms_ok_get _ _ _ Hok Hget).
Qed.

Lemma accepted_moves_bounded_witness :
  (length [JStr "O"; JStr "X"] ≤ empty_cells (board room_moved) ≤ 9)%nat.
Proof.
  apply (accepted_moves_bounded demo_moved "AAAAAA" room_moved
           [ Move "b" "room-17-aaaaaa" 0 (JStr "O");
             Move "b" "room-17-aaaaaa" 4 (JStr "O");
             Leave "c" "room-17-aaaaaa";
             Move "a" "room-17-aaaaaa" 1 (JStr "X") ]).
  - apply demo_moved_reachable.
  - reflexivity.
  - by vm_compute.
Defined.

(** ** Players of a room *)

(** A property of rooms that a new room has and that every event keeps holds
    of every room of a reachable registry. *)
Lemma reachable_rooms_inv (Q : Room → Prop) :
  (∀ sid full, Q (mkRoom [sid] fresh_board "X" waiting full "X")) →
  (∀ rooms ev key room room',
     Q room → room_after rooms ev key room = Some room' → Q room') →
  ∀ rooms, reachable rooms → ∀ k r, rooms_get k rooms = Some r → Q r.
Proof.
  intros Hnew Hkeep rooms.
  induction 1 as [|rooms ev rooms' effs Hreach IH Hstep]; [done|].
  intros k r' Hget'. pose proof (reachable_ok _ Hreach) as Hok.
  destruct (rooms_get k rooms) as [r|] eqn:Hget.
  - rewrite (handle_room _ _ Hok _ _ _ _ Hstep Hget) in Hget'.
    by eapply Hkeep; [eapply IH|].
  - destruct (creates rooms ev k) eqn:Hcr.
    + destruct ev as [sid now rnd fuel| | | | |]; try done. simpl in *.
      apply bool_decide_eq_true in Hcr. unfold on_create_room in Hstep.
      rewrite Hcr in Hstep. injection Hstep as <- _.
      rewrite rooms_get_set, String.eqb_refl in Hget'. by injection Hget' as <-.
    + by rewrite (handle_absent _ _ Hok _ _ _ Hstep Hget Hcr) in Hget'.
Qed.

Lemma without_NoDup sid (ps : list string) : NoDup ps → NoDup (without sid ps).
Proof. apply NoDup_filter. Qed.

Lemma without_one sid (ps : list string) :
  NoDup ps → sid ∈ ps → length (without sid ps) = pred (length ps).
Proof.
  unfold without. induction 1 as [|p ps Hp Hnd IH]; [by intros ?%elem_of_nil|].
  rewrite filter_cons. intros [->|Hin]%elem_of_cons.
  - destruct (decide (p ≠ p)) as [|_]; [done|].
    pose proof (without_not_elem _ _ Hp) as Hsame. unfold without in Hsame.
    by rewrite Hsame.
  - destruct (decide (p ≠ sid)) as [_|Heq].
    + simpl. rewrite IH by done. destruct ps; [by apply elem_of_nil in Hin|done].
    + destruct Hp. by assert (p = sid) as -> by by destruct (decide (p = sid)).
Qed.

(** X18.  No socket is listed twice among the players of a room of a
    reachable registry (join-room refuses a socket that is already in), so
    a leave or disconnect of a player shortens the list by exactly one. *)
Theorem players_listed_once rooms key room :
  reachable rooms →
  rooms_get key rooms = Some room →
  NoDup (players room)
  ∧ ∀ sid, sid ∈ players room →
           length (without sid (players room)) = pred (length (players room)).
Proof.
  intros Hreach Hget.
  assert (NoDup (players room)) as Hnd.
  { apply (reachable_rooms_inv (λ r, NoDup (players r))) with rooms key;
      [| |done..].
    - intros sid full. simpl. apply NoDup_singleton.
    - clear. intros rooms ev key room room' Hnd.
      destruct ev as [sid now rnd fuel|sid roomId|sid roomId index symbol
                     |sid roomId|sid roomId|sid]; simpl.
      + by intros [= <-].
      + intros [= <-]. destruct (joins sid roomId key room) eqn:Hj; [|done].
        simpl. unfold joins in Hj. destruct roomId as [s|]; [|done].
        apply andb_true_iff in Hj as [_ Hout].
        apply negb_true_iff, bool_decide_eq_false in Hout.
        apply NoDup_app. split_and!; [done | | apply NoDup_singleton].
        by intros x Hx ->%list_elem_of_singleton.
      + intros [= <-]. by destruct (_ && _).
      + intros [= <-]. by destruct (hits rooms roomId key).
      + destruct (hits rooms roomId key); [|by intros [= <-]].
        intros [-> _]%departed_Some. by apply without_NoDup.
      + unfold disconnected.
        destruct (includes sid (players room)); [|by intros [= <-]].
        intros [-> _]%departed_Some. by apply without_NoDup. }
  split; [done|]. intros sid. by apply without_one.
Qed.

Lemma players_listed_once_witness : NoDup (players room_playing).
Proof.
  apply (players_listed_once demo_playing "AAAAAA" room_playing).
  - apply demo_playing_reachable.
  - reflexivity.
Defined.

(** ** When a move ends the game *)

Lemma scan_lines_truthy b ls w :
  scan_lines b ls = Some w → truthy w = true.
Proof.
  induction ls as [|[[x y] z] ls IH]; simpl; [done|].
  destruct (truthy (get b x)) eqn:Hx; simpl; [|done].
  destruct (strict_eq (get b x) (get b y) && strict_eq (get b x) (get b z));
    [by intros [= <-] | done].
Qed.

Lemma checkWinner_truthy b : truthy (checkWinner b) = true ↔ checkWinner b ≠ JNull.
Proof.
  unfold checkWinner. destruct (scan_lines b lines) as [w|] eqn:Hscan.
  - apply scan_lines_truthy in Hscan. rewrite Hscan.
    split; [|done]. intros _ ->. done.
  - by destruct (every _ b).
Qed.

(** X19.  An accepted move stores the board with the symbol written at the
    index and passes the turn: the stored current player is [O] after a
    move of [X] and [X] after a move of [O].  It broadcasts that board, that
    next player and the result of [checkWinner] on the board, and finishes
    the game exactly when that result is not [null] (a winner or a draw);
    otherwise the status stays [playing].  Players, internal id and opener
    are kept. *)
Theorem move_finishes_iff_outcome sid roomId index symbol rooms key room :
  findByFullRoomId roomId rooms = Some (key, room) →
  legal_move room index symbol →
  ∃ room' winner,
    on_move sid roomId index symbol rooms
    = (rooms_set key room' rooms,
       [IoToEmit roomId (game_move (board room') (currentPlayer room') winner)])
    ∧ board room' = <[index := symbol]> (board room)
    ∧ currentPlayer room' = opposite (currentPlayer room)
    ∧ (symbol = JStr "X" → currentPlayer room' = "O")
    ∧ (symbol = JStr "O" → currentPlayer room' = "X")
    ∧ winner = checkWinner (board room')
    ∧ (winner ≠ JNull → gameStatus room' = finished)
    ∧ (winner = JNull → gameStatus room' = playing)
    ∧ players room' = players room
    ∧ fullRoomId room' = fullRoomId room
    ∧ lastStartingPlayer room' = lastStartingPlayer room.
Proof.
  intros Hfind Hlegal.
  exists (moved room index symbol),
    (checkWinner (board (moved room index symbol))).
  split; [by apply on_move_legal|]. destruct Hlegal as (Hst & -> & _).
  split_and!; try done; simpl.
  - unfold opposite, strict_eq.
    destruct (String.eqb_spec (currentPlayer room) "X") as [->|Hne]; [done|].
    rewrite bool_decide_eq_false_2; [done | congruence].
  - by intros ->.
  - by intros ->.
  - intros Hw%checkWinner_truthy. by rewrite Hw.
  - intros Hw. destruct (truthy _) eqn:Ht; [|done].
    by apply checkWinner_truthy in Ht.
Qed.

Lemma move_finishes_iff_outcome_witness :
  ∃ room' winner,
    on_move "b" "room-17-aaaaaa" 4 (JStr "O") demo_moved
    = (rooms_set "AAAAAA" room' demo_moved,
       [IoToEmit "room-17-aaaaaa"
          (game_move (board room') (currentPlayer room') winner)])
    ∧ board room' = <[4 := JStr "O"]> (board room_moved)
    ∧ currentPlayer room' = opposite (currentPlayer room_moved)
    ∧ (JStr "O" = JStr "X" → currentPlayer room' = "O")
    ∧ (JStr "O" = JStr "O" → currentPlayer room' = "X")
    ∧ winner = checkWinner (board room')
    ∧ (winner ≠ JNull → gameStatus room' = finished)
    ∧ (winner = JNull → gameStatus room' = playing)
    ∧ players room' = players room_moved
    ∧ fullRoomId room' = fullRoomId room_moved
    ∧ lastStartingPlayer room' = lastStartingPlayer room_moved.
Proof.
  apply (move_finishes_iff_outcome "b" "room-17-aaaaaa" 4 (JStr "O") demo_moved
           "AAAAAA" room_moved).
  - reflexivity.
  - by_eval.
Defined.
